(** * A shallow embedding of the group RAG assistant

    The Python sources embedded here are
    - [app/server.py]: the in-memory chat memory ([_clamp_int],
      [_get_history], [_build_context], [_store_turn]), the slicer
      [_chunk_text] and the two endpoints [api_ask] and [api_ask_stream];
    - [app/rag/query.py]: [format_sources], [SYSTEM_HINT] and [ask];
    - [app/llm.py]: [get_chat];
    - [app/rag/ingest.py]: the metadata loop of [build_index].

    Python strings are sequences of code points, so [str] is [list N] and a
    length is a number of characters.  Dictionaries are [gmap]s, the module
    level dictionary [_SESSION_TURNS] is threaded through every function that
    touches it, and exceptions are the [Raise] branch of [Exc]. *)

From Stdlib Require Import ZArith Lia.
From stdpp Require Import gmap list strings pretty.

Local Open Scope Z_scope.

(* ===================================================================== *)
(** * Python strings and values *)
(* ===================================================================== *)

Abbreviation char := N (only parsing).
Abbreviation str := (list N) (only parsing).

(** An ASCII literal of the source, as a Python string. *)
Definition lit (s : string) : str :=
  Ascii.N_of_ascii <$> String.list_ascii_of_string s.

(** [sep.join(parts)] *)
Fixpoint join (sep : str) (parts : list str) : str :=
  match parts with
  | [] => []
  | [p] => p
  | p :: ps => p ++ sep ++ join sep ps
  end.

(** [l[start:]] for a possibly negative [start]. *)
Definition slice_from {A} (start : Z) (l : list A) : list A :=
  let len := Z.of_nat (length l) in
  let i := if start <? 0 then Z.max (len + start) 0 else Z.min start len in
  drop (Z.to_nat i) l.

(** [l[lo:hi]] for non negative bounds. *)
Definition slice {A} (lo hi : nat) (l : list A) : list A :=
  take (hi - lo) (drop lo l).

(** [f"{z}"] for an integer. *)
Definition str_of_int (z : Z) : str := lit (pretty z).

(** The last [n] elements of a list. *)
Definition lastn {A} (n : nat) (l : list A) : list A :=
  drop (length l - n) l.

(** The elements of [l] whose key no earlier element has, in the order of
    [l]: an element stays and takes every later element of its key out. *)
Fixpoint first_seen {A K} `{EqDecision K} (key : A → K) (l : list A) : list A :=
  match l with
  | [] => []
  | x :: l' => x :: filter (λ y, key y ≠ key x) (first_seen key l')
  end.

(** The first [n] consecutive pieces of [size] elements of [s]; the last
    ones are shorter or empty when [s] runs out. *)
Definition strides {A} (size n : nat) (s : list A) : list (list A) :=
  (λ j, take size (drop (j * size) s)) <$> seq 0 n.

(* ===================================================================== *)
(** * Session memory ([app/server.py]) *)
(* ===================================================================== *)

Module Memory.

Definition DEFAULT_CONTEXT_TURNS : Z := 10.
Definition _MAX_TURNS_PER_SESSION : nat := 80.

Record Turn := mkTurn { q : str; a : str }.

(** [collections.deque(maxlen=n)]: the bound travels with the object. *)
Record Deque := mkDeque { maxlen : nat; items : list Turn }.

(** [deque.append]: the item goes to the right end, and a deque that is
    then longer than its bound loses its leftmost item. *)
Definition deque_append (d : Deque) (t : Turn) : Deque :=
  let l := items d ++ [t] in
  mkDeque (maxlen d) (if (maxlen d <? length l)%nat then drop 1 l else l).

(** [_SESSION_TURNS : Dict[str, Deque[Turn]]] *)
Abbreviation Store := (gmap (list N) Deque).

Definition _clamp_int (x lo hi : Z) : Z := Z.max lo (Z.min hi x).

(** [_get_history] returns a reference to the deque held by the store;
    the reference is the key, the second component is the store after the
    lazy creation. *)
Definition _get_history (session_id : str) (st : Store) : Deque * Store :=
  match st !! session_id with
  | Some d => (d, st)
  | None =>
      let d := mkDeque _MAX_TURNS_PER_SESSION [] in
      (d, <[session_id := d]> st)
  end.

Definition fmt_turn (t : Turn) : str :=
  lit "User: " ++ q t ++ lit "
Assistant: " ++ a t.

Definition blank_line : str := [10%N; 10%N].

Definition _build_context (session_id : str) (depth : Z) (st : Store)
  : str * Store :=
  let depth := _clamp_int depth 0 10 in
  if depth <=? 0 then ([], st)
  else
    let '(hist, st) := _get_history session_id st in
    match items hist with
    | [] => ([], st)
    | _ =>
        let turns := slice_from (- depth) (items hist) in
        (join blank_line (fmt_turn <$> turns), st)
    end.

(** [hist.append] mutates the deque that the store holds under
    [session_id]. *)
Definition _store_turn (session_id q a : str) (st : Store) : Store :=
  let '(hist, st) := _get_history session_id st in
  <[session_id := deque_append hist (mkTurn q a)]> st.

(** [_chunk_text]: the empty string gives no chunk; [range] refuses a zero
    step with [ValueError], which is [None] here. *)
Definition range_step (stop step : nat) : list nat :=
  (λ j, j * step)%nat <$> seq 0 (Nat.div (stop + step - 1) step).

Definition _chunk_text {A} (s : list A) (size : nat) : option (list (list A)) :=
  match s with
  | [] => Some []
  | _ =>
      if (size =? 0)%nat then None
      else Some ((λ i, slice i (i + size) s) <$> range_step (length s) size)
  end.

(** The turns a session holds, none for a session the store does not know. *)
Definition history (st : Store) (session_id : str) : list Turn :=
  from_option items [] (st !! session_id).

(** A request to the memory: one [_store_turn]. *)
Record Append := mkAppend { ap_sid : str; ap_q : str; ap_a : str }.

Definition run_appends (ops : list Append) (st : Store) : Store :=
  foldl (λ st op, _store_turn (ap_sid op) (ap_q op) (ap_a op) st) st ops.

(** The turns that [ops] send to [session_id], in arrival order. *)
Definition turns_for (session_id : str) (ops : list Append) : list Turn :=
  (λ op, mkTurn (ap_q op) (ap_a op)) <$>
    filter (λ op, ap_sid op = session_id) ops.

(** Every deque of the store was made by [_get_history]. *)
Definition store_ok (st : Store) : Prop :=
  ∀ sid d, st !! sid = Some d →
    maxlen d = _MAX_TURNS_PER_SESSION ∧
    (length (items d) ≤ _MAX_TURNS_PER_SESSION)%nat.

End Memory.

(* ===================================================================== *)
(** * Values, exceptions and the effects of a request *)
(* ===================================================================== *)

(** The values that document metadata holds. *)
Inductive pyval :=
| PNone
| PStr (s : str)
| PInt (z : Z).

Global Instance pyval_eq_dec : EqDecision pyval.
Proof. solve_decision. Defined.

(** [bool(v)] *)
Definition truthy (v : pyval) : bool :=
  match v with
  | PNone => false
  | PStr s => bool_decide (s ≠ [])
  | PInt z => bool_decide (z ≠ 0)
  end.

(** [a or b] *)
Definition py_or (a b : pyval) : pyval := if truthy a then a else b.

(** [str(v)], also what an f-string prints. *)
Definition py_str (v : pyval) : str :=
  match v with
  | PNone => lit "None"
  | PStr s => s
  | PInt z => str_of_int z
  end.

(** [d.get(key)] and [d.get(key, default)] *)
Definition dict_get (d : gmap (list N) pyval) (key : str) : pyval :=
  default PNone (d !! key).
Definition dict_get_or (d : gmap (list N) pyval) (key : str) (dflt : pyval)
  : pyval :=
  default dflt (d !! key).

Inductive exn :=
| ValueError (msg : str)
| TypeError (msg : str)
| HTTPException (status_code : Z) (detail : str)
| CapabilityError (msg : str).

(** [str(e)]; an [HTTPException] prints its status and its detail. *)
Definition exn_str (e : exn) : str :=
  match e with
  | ValueError msg | TypeError msg | CapabilityError msg => msg
  | HTTPException code detail => str_of_int code ++ lit ": " ++ detail
  end.

Inductive Exc (A : Type) :=
| Ok (x : A)
| Raise (e : exn).
Arguments Ok {A} x.
Arguments Raise {A} e.

Definition exc_bind {A B} (c : Exc A) (k : A → Exc B) : Exc B :=
  match c with
  | Ok x => k x
  | Raise e => Raise e
  end.

(** The results of [f] along [l], or the first exception. *)
Fixpoint exc_mapM {A B} (f : A → Exc B) (l : list A) : Exc (list B) :=
  match l with
  | [] => Ok []
  | x :: l' =>
      exc_bind (f x) (λ y, exc_bind (exc_mapM f l') (λ ys, Ok (y :: ys)))
  end.

(** [int(v)]; what [int] makes of a string is left to [int_of_str]. *)
Definition py_int (int_of_str : str → Exc Z) (v : pyval) : Exc Z :=
  match v with
  | PInt z => Ok z
  | PStr s => int_of_str s
  | PNone =>
      Raise (TypeError (lit "int() argument must be a string or a number"))
  end.

(** A LangChain document: its text and its metadata dictionary. *)
Record Document := mkDocument {
  page_content : str;
  metadata : gmap (list N) pyval
}.

(** The wire events of the streaming endpoint. *)
Inductive Event :=
| Delta (text : str)
| Done (sources : str)
| ErrorEvent (error : str).

(** [ChatOllama(model=..., temperature=...)]; the temperature in hundredths. *)
Record ChatOllama := mkChat { model : str; temperature_pct : Z }.

(** A call that left the process. *)
Inductive Call :=
| Retrieval (question : str) (k fetch_k : Z)
| Generation (llm : ChatOllama) (system prompt : str).

(** What a request can see and change: the session store, the calls made
    to the index and to the model, and the lines written to the stream. *)
Record World := mkWorld {
  sessions : gmap (list N) Memory.Deque;
  calls : list Call;
  wire : list Event
}.

(** The capabilities outside the repository. *)
Record Env := mkEnv {
  (* the entries of [SETTINGS.vectorstore_dir], [None] when it is absent *)
  vectorstore_dir : option (list str);
  (* [Chroma(...).as_retriever(search_type="mmr", ...).invoke(question)] *)
  retriever_invoke : str → Z → Z → Exc (list Document);
  (* [llm.invoke([SystemMessage(sys), HumanMessage(prompt)]).content] *)
  llm_invoke : ChatOllama → str → str → Exc str;
  (* [int] on a string *)
  int_of_str : str → Exc Z
}.

(** Computations that read and write the world and may raise; the world
    keeps what was done before the exception. *)
Definition M (A : Type) : Type := World → Exc A * World.

Definition ret {A} (x : A) : M A := λ w, (Ok x, w).
Definition bind {A B} (c : M A) (k : A → M B) : M B :=
  λ w, match c w with
       | (Ok x, w') => k x w'
       | (Raise e, w') => (Raise e, w')
       end.
Definition raise {A} (e : exn) : M A := λ w, (Raise e, w).
Definition lift {A} (c : Exc A) : M A := λ w, (c, w).
(** [try: c  except Exception as e: h e] *)
Definition try_except {A} (c : M A) (h : exn → M A) : M A :=
  λ w, match c w with
       | (Ok x, w') => (Ok x, w')
       | (Raise e, w') => h e w'
       end.

Declare Scope py_scope.
Delimit Scope py_scope with py.
Notation "'let!' x := c 'in' k" := (bind c (λ x, k))
  (at level 10, x name, c at level 100, k at level 200) : py_scope.
Notation "'run!' c 'in' k" := (bind c (λ _, k))
  (at level 10, c at level 100, k at level 200) : py_scope.

Definition log_call (c : Call) : M unit :=
  λ w, (Ok tt, mkWorld (sessions w) (calls w ++ [c]) (wire w)).
(** [yield json.dumps(event) + "\n"] *)
Definition emit (e : Event) : M unit :=
  λ w, (Ok tt, mkWorld (sessions w) (calls w) (wire w ++ [e])).
Definition with_sessions {A}
  (f : gmap (list N) Memory.Deque → A * gmap (list N) Memory.Deque) : M A :=
  λ w, let '(x, st) := f (sessions w) in (Ok x, mkWorld st (calls w) (wire w)).

Fixpoint for_each {A} (l : list A) (body : A → M unit) : M unit :=
  match l with
  | [] => ret tt
  | x :: l' => bind (body x) (λ _, for_each l' body)
  end.

(* ===================================================================== *)
(** * Retrieval and generation ([app/rag/query.py], [app/llm.py]) *)
(* ===================================================================== *)

Module Query.

Definition nl : str := [10%N].
Definition ellipsis : str := [8230%N].

(** [s.replace("\n", " ")] *)
Definition replace_newlines (s : str) : str :=
  (λ c, if (c =? 10)%N then 32%N else c) <$> s.

(** The code points [str.strip] removes. *)
Definition is_space (c : char) : bool :=
  ((9 <=? c) && (c <=? 13) || (28 <=? c) && (c <=? 32)
   || (c =? 133) || (c =? 160) || (c =? 5760)
   || (8192 <=? c) && (c <=? 8202) || (c =? 8232) || (c =? 8233)
   || (c =? 8239) || (c =? 8287) || (c =? 12288))%N.

Fixpoint lstrip (s : str) : str :=
  match s with
  | [] => []
  | c :: s' => if is_space c then lstrip s' else s
  end.

Definition strip (s : str) : str := reverse (lstrip (reverse (lstrip s))).

(** The snippet of a chunk: one line, trimmed, cut at [max_snippet]. *)
Definition clean (content : str) : str := strip (replace_newlines content).

Definition snippet_of (max_snippet : nat) (content : str) : str :=
  let snippet := clean content in
  if (max_snippet <? length snippet)%nat
  then take max_snippet snippet ++ ellipsis
  else snippet.

(** One pass of the loop body up to the membership test: the key and the
    citation line of a chunk. *)
Definition source_of (d : Document) : pyval :=
  dict_get_or (metadata d) (lit "source") (PStr (lit "unknown")).
Definition page_of (d : Document) : pyval :=
  dict_get_or (metadata d) (lit "page") PNone.

Definition cite (int_of_str : str → Exc Z) (max_snippet : nat) (d : Document)
  : Exc (str * str) :=
  let src := source_of d in
  let page := page_of d in
  let snippet := snippet_of max_snippet (page_content d) in
  match page with
  | PNone =>
      Ok (py_str src, lit "- " ++ py_str src ++ lit ": " ++ snippet)
  | _ =>
      exc_bind (py_int int_of_str page) (λ p,
      exc_bind (py_int int_of_str page) (λ p',
        Ok (py_str src ++ lit ":" ++ str_of_int p,
            lit "- " ++ py_str src ++ lit " (p." ++ str_of_int (p' + 1)
              ++ lit "): " ++ snippet)))
  end.

(** The key and line of a chunk at the default snippet length, when the
    page can be read. *)
Definition cite_ok (int_of_str : str → Exc Z) (d : Document)
  : option (str * str) :=
  match cite int_of_str 220 d with
  | Ok kl => Some kl
  | Raise _ => None
  end.

Fixpoint format_loop (int_of_str : str → Exc Z) (max_snippet : nat)
    (docs : list Document) (seen : gset (list N)) (lines : list str)
  : Exc (list str) :=
  match docs with
  | [] => Ok lines
  | d :: docs' =>
      match cite int_of_str max_snippet d with
      | Raise e => Raise e
      | Ok (key, line) =>
          if decide (key ∈ seen)
          then format_loop int_of_str max_snippet docs' seen lines
          else format_loop int_of_str max_snippet docs'
                 ({[key]} ∪ seen) (lines ++ [line])
      end
  end.

Definition format_sources (int_of_str : str → Exc Z) (docs : list Document)
    (max_snippet : nat) : Exc str :=
  exc_bind (format_loop int_of_str max_snippet docs ∅ [])
    (λ lines, Ok (join nl lines)).

Definition thesis_hint : str :=
  lit "Use ONLY the provided context. If context is insufficient, output [MISSING INFO] "
  ++ lit "and list exactly what is missing. Do not invent citations or data.".
Definition reviewer_hint : str :=
  lit "Use ONLY the provided context/text. Be strict and specific. "
  ++ lit "Do not invent facts or citations.".
Definition python_hint : str :=
  lit "Return runnable Python code only. Use the provided context when relevant. "
  ++ lit "If you must assume something, write it as a Python comment starting with: # ASSUMPTION:".

Definition SYSTEM_HINT : gmap (list N) (list N) :=
  <[lit "thesis" := thesis_hint]>
  (<[lit "reviewer" := reviewer_hint]>
  (<[lit "python" := python_hint]> ∅)).

(** [app/config.py] *)
Definition thesis_model : str := lit "typewriter-thesis".
Definition python_model : str := lit "typewriter-python".
Definition reviewer_model : str := lit "typewriter-thesis".

(** [app/llm.py] *)
Definition get_chat (agent : str) : Exc ChatOllama :=
  if decide (agent = lit "thesis") then Ok (mkChat thesis_model 25)
  else if decide (agent = lit "python") then Ok (mkChat python_model 20)
  else if decide (agent = lit "reviewer") then Ok (mkChat reviewer_model 20)
  else Raise (ValueError (lit "Unknown agent: " ++ agent)).

(** The answer dictionary of [ask]. *)
Record Out := mkOut { answer : str; sources : str }.

Local Open Scope py_scope.

Definition ask (env : Env) (agent question : str) (k : Z) : M Out :=
  let fetch_k := Z.max 24 (k * 3) in
  run! log_call (Retrieval question k fetch_k) in
  let! docs := lift (retriever_invoke env question k fetch_k) in
  let context := join (nl ++ nl) (page_content <$> docs) in
  let sys := default thesis_hint (SYSTEM_HINT !! agent) in
  let prompt :=
    lit "Context:" ++ nl ++ context ++ nl ++ nl
    ++ lit "User request:" ++ nl ++ question ++ nl in
  let! llm := lift (get_chat agent) in
  run! log_call (Generation llm sys prompt) in
  let! content := lift (llm_invoke env llm sys prompt) in
  let! srcs := lift (format_sources (int_of_str env) docs 220) in
  ret (mkOut content srcs).

End Query.

(* ===================================================================== *)
(** * The two endpoints ([app/server.py]) *)
(* ===================================================================== *)

Module Server.
Import Memory Query.
Local Open Scope py_scope.

Record AskRequest := mkAskRequest {
  agent : str;
  question : str;
  k : Z;
  session_id : option str
}.

Record JSONResponse := mkJSON {
  ok : bool;
  json_answer : option str;
  json_sources : option str;
  json_error : option str
}.

Definition AGENTS : list str := [lit "thesis"; lit "python"; lit "reviewer"].

Definition agent_detail : str := lit "agent must be thesis/python/reviewer".

Definition index_missing : str :=
  lit "Vector index not found. Run: python main.py ingest (from project root), then reload the page.".

(** [SETTINGS.vectorstore_dir.exists() and any(SETTINGS.vectorstore_dir.iterdir())]
    for a path that is absent or is a directory that can be listed: the
    entries are what [iterdir()] yields.  A path that exists and cannot
    be listed, for which [iterdir()] raises, has no value in [Env]. *)
Definition index_ready (env : Env) : bool :=
  match vectorstore_dir env with
  | None => false
  | Some entries => bool_decide (entries ≠ [])
  end.

(** [if req.session_id:] holds for a session id that is neither [None]
    nor the empty string. *)
Definition session_of (req : AskRequest) : option str :=
  match session_id req with
  | Some (c :: s) => Some (c :: s)
  | _ => None
  end.

Definition framed (ctx question : str) : str :=
  lit "You are continuing an ongoing conversation. Use the context below to stay consistent."
  ++ nl ++ nl
  ++ lit "=== Conversation context (most recent last) ===" ++ nl
  ++ ctx ++ nl
  ++ lit "=== End context ===" ++ nl ++ nl
  ++ lit "User: " ++ question.

Definition question_for_model (req : AskRequest) : M str :=
  match session_of req with
  | Some sid =>
      let! ctx := with_sessions (_build_context sid DEFAULT_CONTEXT_TURNS) in
      ret (match ctx with [] => question req | _ => framed ctx (question req) end)
  | None => ret (question req)
  end.

Definition remember (req : AskRequest) (answer : str) : M unit :=
  match session_of req with
  | Some sid =>
      with_sessions (λ st, (tt, _store_turn sid (question req) answer st))
  | None => ret tt
  end.

(** A [JSONResponse] is the content the handler passes to it.  Rendering
    the content to bytes, which the framework does when the response is
    built, has no step here: the contents are taken to be renderable. *)
Definition api_ask (env : Env) (req : AskRequest) : M JSONResponse :=
  try_except
    (if decide (agent req ∈ AGENTS) then
       if negb (index_ready env)
       then ret (mkJSON false None None (Some index_missing))
       else
         let! q := question_for_model req in
         let! out := ask env (agent req) q (k req) in
         run! remember req (answer out) in
         ret (mkJSON true (Some (answer out)) (Some (sources out)) None)
     else raise (HTTPException 400 agent_detail))
    (λ e, ret (mkJSON false None None (Some (exn_str e)))).

Definition err_gen : M unit := emit (ErrorEvent index_missing).

Definition gen (env : Env) (req : AskRequest) (question_for_model : str)
  : M unit :=
  try_except
    (let! out := ask env (agent req) question_for_model (k req) in
     run! remember req (answer out) in
     let! chunks :=
       lift (match _chunk_text (answer out) 140 with
             | Some chunks => Ok chunks
             | None => Raise (ValueError (lit "range() arg 3 must not be zero"))
             end) in
     run! for_each chunks (λ ch, emit (Delta ch)) in
     emit (Done (sources out)))
    (λ e, emit (ErrorEvent (exn_str e))).

(** The body of the stream is what the run leaves on the wire; an
    exception that leaves the handler is the HTTP error reply. *)
Definition api_ask_stream (env : Env) (req : AskRequest) : M unit :=
  if decide (agent req ∈ AGENTS) then
    if negb (index_ready env) then err_gen
    else
      let! q := question_for_model req in
      gen env req q
  else raise (HTTPException 400 agent_detail).

End Server.

(* ===================================================================== *)
(** * Metadata at ingestion ([app/rag/ingest.py]) *)
(* ===================================================================== *)

Module Ingest.

(** What the file system decides: [Path(p).resolve()] as the segments of
    the absolute path, and the segments of [SETTINGS.kb_dir.resolve()]. *)
Record PathEnv := mkPathEnv {
  resolve : str → Exc (list str);
  kb_root : list str
}.

(** [s.lower()] on the letters A to Z.  Outside ASCII Python follows the
    Unicode tables, and no code point there lowers to a string of ASCII
    letters other than the Kelvin sign, which gives a k; so comparing
    with the two folder names, which have no k, is not affected. *)
Definition lower (s : str) : str :=
  (λ c, if ((65 <=? c) && (c <=? 90))%N then (c + 32)%N else c) <$> s.

(** [Path(v)] takes a string. *)
Definition path_of (v : pyval) : Exc str :=
  match v with
  | PStr s => Ok s
  | _ => Raise (TypeError (lit "expected str, bytes or os.PathLike object"))
  end.

(** [p.relative_to(root)]: the segments of [p] below [root], and a
    [ValueError] when [p] is not below it. *)
Definition relative_to (p root : list str) : Exc (list str) :=
  if decide (take (length root) p = root)
  then Ok (drop (length root) p)
  else Raise (ValueError (lit "path is not in the subpath of the root")).

(** The first of the four keys that holds a true value, else the value of
    the last; the [source] key is rewritten when that is not [None]. *)
Definition pick_source (md : gmap (list N) pyval) : pyval :=
  py_or (py_or (py_or (dict_get md (lit "source"))
                      (dict_get md (lit "file_path")))
               (dict_get md (lit "path")))
        (dict_get md (lit "filename")).

Definition normalize_source (md : gmap (list N) pyval) : gmap (list N) pyval :=
  match pick_source md with
  | PNone => md
  | src => <[lit "source" := PStr (py_str src)]> md
  end.

(** The body of the [try]. *)
Definition scope_try (env : PathEnv) (md : gmap (list N) pyval) : Exc str :=
  exc_bind (path_of (dict_get_or md (lit "source") (PStr []))) (λ p,
  exc_bind (resolve env p) (λ abs,
  exc_bind (relative_to abs (kb_root env)) (λ rel,
    let top := match rel with [] => [] | t :: _ => t end in
    Ok (if decide (lower top = lit "internal") then lit "internal"
        else if decide (lower top = lit "public") then lit "public"
        else lit "unknown")))).

(** [except Exception: pass] leaves the scope at its first value. *)
Definition kb_scope (env : PathEnv) (md : gmap (list N) pyval) : str :=
  match scope_try env md with
  | Ok scope => scope
  | Raise _ => lit "unknown"
  end.

(** One pass of [for d in docs]. *)
Definition tag_document (env : PathEnv) (d : Document) : Document :=
  let md := normalize_source (metadata d) in
  mkDocument (page_content d)
             (<[lit "kb_scope" := PStr (kb_scope env md)]> md).

(** Modelled from the spec: [RecursiveCharacterTextSplitter.split_documents]
    is LangChain's; a chunk is a slice of its document's text, chosen by
    [split_text], and carries its document's metadata unchanged. *)
Definition split_documents (split_text : str → list str)
    (docs : list Document) : list Document :=
  d ← docs; (λ c, mkDocument c (metadata d)) <$> split_text (page_content d).

(** The chunks [build_index] hands to the vector store. *)
Definition index_chunks (env : PathEnv) (split_text : str → list str)
    (docs : list Document) : list Document :=
  split_documents split_text (tag_document env <$> docs).

End Ingest.

(* ===================================================================== *)
(** * Concrete requests, stores and documents *)
(* ===================================================================== *)

Module Examples.
Import Memory Query Server Ingest.

Definition sid0 : str := lit "s1".

Definition turn_n (n : nat) : Turn :=
  mkTurn (lit "q" ++ str_of_int (Z.of_nat n))
         (lit "a" ++ str_of_int (Z.of_nat n)).

(** Eighty five appends to one session. *)
Definition ops85 : list Append :=
  (λ n, mkAppend sid0 (q (turn_n n)) (a (turn_n n))) <$> seq 0 85.

(** A store in which [sid0] holds three turns. *)
Definition store3 : gmap (list N) Deque :=
  run_appends (take 3 ops85) ∅.

Definition world0 : World := mkWorld ∅ [] [].

Definition answer305 : str := replicate 305 120%N.

(** An index that holds nothing relevant and a model that answers with
    305 characters. *)
Definition env_ok : Env :=
  mkEnv (Some [lit "chroma.sqlite3"])
        (λ _ _ _, Ok [])
        (λ _ _ _, Ok answer305)
        (λ _, Raise (ValueError (lit "invalid literal for int()"))).

(** The same with the index directory missing. *)
Definition env_no_index : Env :=
  mkEnv None (retriever_invoke env_ok) (llm_invoke env_ok) (int_of_str env_ok).

(** The same with a model that is down. *)
Definition env_model_down : Env :=
  mkEnv (vectorstore_dir env_ok) (retriever_invoke env_ok)
        (λ _ _ _, Raise (CapabilityError (lit "connection refused")))
        (int_of_str env_ok).

Definition req_thesis : AskRequest :=
  mkAskRequest (lit "thesis") (lit "What is a cell?") 4 (Some sid0).

Definition req_bogus : AskRequest :=
  mkAskRequest (lit "bogus") (lit "What is a cell?") 4 (Some sid0).

Definition out305 : Out := mkOut answer305 [].

Definition doc_page2 : Document :=
  mkDocument (lit "alpha")
    (<[lit "source" := PStr (lit "doc.pdf")]> (<[lit "page" := PInt 2]> ∅)).

(** A corpus at /srv/kb in which every source resolves to one file of
    the folder INTERNAL. *)
Definition paths0 : PathEnv :=
  mkPathEnv (λ _, Ok [lit "srv"; lit "kb"; lit "INTERNAL"; lit "x.md"])
            [lit "srv"; lit "kb"].

Definition md_internal : gmap (list N) pyval :=
  <[lit "source" := PStr (lit "/srv/kb/INTERNAL/x.md")]> ∅.


Definition doc_bare : Document := mkDocument (lit "gamma") ∅.

Definition whole_text (s : str) : list str := [s].

End Examples.

(* ===================================================================== *)
(** * The messages of [ask] *)
(* ===================================================================== *)

Module Prompt.
Import Query.

(** The user message [ask] builds from the retrieved chunks and the
    question, and the system message it picks for the agent. *)
Definition ask_prompt (docs : list Document) (question : str) : str :=
  lit "Context:" ++ nl ++ join (nl ++ nl) (page_content <$> docs) ++ nl ++ nl
  ++ lit "User request:" ++ nl ++ question ++ nl.

Definition ask_system (agent : str) : str :=
  default thesis_hint (SYSTEM_HINT !! agent).

(** The world after the retrieval call, and after the generation call. *)
Definition retrieved (question : str) (k : Z) (w : World) : World :=
  mkWorld (sessions w)
          (calls w ++ [Retrieval question k (Z.max 24 (k * 3))]) (wire w).

Definition generated (llm : ChatOllama) (agent question : str) (k : Z)
    (docs : list Document) (w : World) : World :=
  mkWorld (sessions w)
          (calls w ++ [Retrieval question k (Z.max 24 (k * 3));
                       Generation llm (ask_system agent)
                         (ask_prompt docs question)])
          (wire w).

End Prompt.

(* ===================================================================== *)
(** * Loading the corpus ([app/rag/ingest.py]) *)
(* ===================================================================== *)

Module Loader.
Import Ingest.

(** One element of [kb_dir.rglob("*")]: the path [p], [p.is_dir()] and
    [p.suffix]. *)
Record Entry := mkEntry { entry_path : str; is_dir : bool; suffix : str }.

Definition TEXT_EXT : list str :=
  [lit ".txt"; lit ".md"; lit ".tex"; lit ".bib"; lit ".csv"].

(** [PyPDFLoader(str(p)).load()] and [TextLoader(str(p), ...).load()] *)
Record Loaders := mkLoaders {
  pdf_load : str → Exc (list Document);
  text_load : str → Exc (list Document)
}.

Fixpoint load_docs (ld : Loaders) (entries : list Entry)
  : Exc (list Document) :=
  match entries with
  | [] => Ok []
  | p :: rest =>
      if is_dir p then load_docs ld rest
      else
        let ext := lower (suffix p) in
        if decide (ext = lit ".pdf") then
          exc_bind (pdf_load ld (entry_path p)) (λ ds,
          exc_bind (load_docs ld rest) (λ more, Ok (ds ++ more)))
        else if decide (ext ∈ TEXT_EXT) then
          exc_bind (text_load ld (entry_path p)) (λ ds,
          exc_bind (load_docs ld rest) (λ more, Ok (ds ++ more)))
        else load_docs ld rest
  end.

(** The files [load_docs] hands to a loader. *)
Definition loadable (p : Entry) : Prop :=
  is_dir p = false ∧ lower (suffix p) ∈ lit ".pdf" :: TEXT_EXT.

Global Instance loadable_dec p : Decision (loadable p).
Proof. unfold loadable. apply _. Defined.

(** How [build_index] ends: with the message that the corpus is empty
    and no index written, or with the chunks it hands to
    [Chroma.from_documents]. *)
Inductive IndexOutcome :=
| NothingToIndex
| Indexed (chunks : list Document).

Definition build_index (paths : PathEnv) (ld : Loaders)
    (split_text : str → list str) (entries : list Entry)
  : Exc IndexOutcome :=
  exc_bind (load_docs ld entries) (λ docs,
    match docs with
    | [] => Ok NothingToIndex
    | _ => Ok (Indexed (index_chunks paths split_text docs))
    end).

End Loader.

(* ===================================================================== *)
(** * The command line ([main.py]) *)
(* ===================================================================== *)

Module Cli.
Import Query.

(** What a run of [main] does, in order. *)
Inductive Action :=
| PrintUsage
| PrintMissingQuestion
| BuildIndex
| Ask (agent question : str)
| PrintAnswer (text : str)
| PrintSources (text : str)
| WriteText (path text : str)
| PrintOK
| Uncaught (e : exn).

(** What a run meets outside [main.py] and [demo_agent.py]. *)
Record Sys := mkSys {
  (* [SETTINGS.vectorstore_dir.exists() and any(SETTINGS.vectorstore_dir.iterdir())] *)
  ready : Exc bool;
  (* [build_index()] *)
  build_index : Exc unit;
  (* [ask(agent, question)], with its default [k] *)
  ask_fn : str → str → Exc Out;
  (* [path.write_text(text, encoding="utf-8")] *)
  write_text : str → str → Exc unit
}.

(** One call and what follows it; an exception ends the run, since
    neither [main] nor [run_demo] catches any. *)
Definition call {A} (act : Action) (r : Exc A) (rest : A → list Action)
  : list Action :=
  act :: match r with
         | Ok x => rest x
         | Raise e => [Uncaught e]
         end.

(** [ensure_index], which [main.py] and [demo_agent.py] both define,
    followed by the rest of the run. *)
Definition ensure_index (sys : Sys) (rest : list Action) : list Action :=
  match ready sys with
  | Ok true => rest
  | Ok false => call BuildIndex (build_index sys) (λ _, rest)
  | Raise e => [Uncaught e]
  end.

Definition q1 : str :=
  lit "Write a short Methods-style paragraph for an electrochemistry data analysis workflow. Use the retrieved context. No invented citations.".

Definition q2 : str :=
  lit "Propose a robust Python data analysis skeleton for battery cycling data (capacity vs cycle). "
  ++ lit "Include: loading, cleaning, feature extraction, and matplotlib plotting. "
  ++ lit "Return code only.".

Definition q3_head : str :=
  lit "Review the following Methods paragraph for scientific tone, missing info, and potential hallucinations. "
  ++ lit "Return bullet points only." ++ nl ++ nl.

(** [run_demo] of [app/workflows/demo_agent.py]; the folder reports is
    made when the module is loaded. *)
Definition run_demo (sys : Sys) : list Action :=
  ensure_index sys
    (call (Ask (lit "thesis") q1) (ask_fn sys (lit "thesis") q1) (λ out1,
     let text1 := strip (answer out1) ++ nl in
     call (WriteText (lit "reports/methods.md") text1)
          (write_text sys (lit "reports/methods.md") text1) (λ _,
     call (Ask (lit "python") q2) (ask_fn sys (lit "python") q2) (λ out2,
     let text2 := strip (answer out2) ++ nl in
     call (WriteText (lit "reports/analysis_skeleton.py") text2)
          (write_text sys (lit "reports/analysis_skeleton.py") text2) (λ _,
     let q3 := q3_head ++ answer out1 in
     call (Ask (lit "reviewer") q3) (ask_fn sys (lit "reviewer") q3) (λ out3,
     let text3 := strip (answer out3) ++ nl in
     call (WriteText (lit "reports/review.txt") text3)
          (write_text sys (lit "reports/review.txt") text3) (λ _,
     [PrintOK]))))))).

(** [main]; [argv] is [sys.argv].  The command names hold no k, so
    [Ingest.lower] decides the comparisons as Python's [lower] does. *)
Definition main (sys : Sys) (argv : list str) : list Action :=
  match argv with
  | [] | [_] => [PrintUsage]
  | _ :: arg :: rest =>
      let cmd := strip (Ingest.lower arg) in
      if decide (cmd = lit "ingest") then
        call BuildIndex (build_index sys) (λ _, [])
      else if decide (cmd = lit "demo") then run_demo sys
      else if decide (cmd ∈ [lit "thesis"; lit "python"; lit "reviewer"]) then
        let q := strip (join (lit " ") rest) in
        match q with
        | [] => [PrintMissingQuestion]
        | _ =>
            ensure_index sys
              (call (Ask cmd q) (ask_fn sys cmd q) (λ out,
               PrintAnswer (answer out) ::
               match sources out with
               | [] => []
               | _ => [PrintSources (sources out)]
               end))
        end
      else [PrintUsage]
  end.

(** The questions put to [ask] and the files written in a run, in order. *)
Definition asks (trace : list Action) : list (str * str) :=
  omap (λ act, match act with Ask a q => Some (a, q) | _ => None end) trace.

Definition writes (trace : list Action) : list (str * str) :=
  omap (λ act, match act with WriteText p t => Some (p, t) | _ => None end)
       trace.

(** The answer of a call that returned. *)
Definition answer_of (r : Exc Out) : str :=
  match r with
  | Ok out => answer out
  | Raise _ => []
  end.

End Cli.

(* ===================================================================== *)
(** * More concrete inputs *)
(* ===================================================================== *)

Module MoreExamples.
Import Query Ingest Loader Cli Examples.

Definition loaders0 : Loaders :=
  mkLoaders (λ p, Ok [mkDocument (lit "page one")
                        (<[lit "source" := PStr p]>
                           (<[lit "page" := PInt 0]> ∅))])
            (λ p, Ok [mkDocument (lit "text") (<[lit "source" := PStr p]> ∅)]).

Definition entries0 : list Entry :=
  [mkEntry (lit "/srv/kb/public") true [];
   mkEntry (lit "/srv/kb/public/a.PDF") false (lit ".PDF");
   mkEntry (lit "/srv/kb/public/b.png") false (lit ".png");
   mkEntry (lit "/srv/kb/public/c.md") false (lit ".md")].

Definition ask_echo (agent question : str) : Exc Out :=
  Ok (mkOut question []).

(** No index yet; building, asking and writing all go through. *)
Definition sys_echo : Sys :=
  mkSys (Ok false) (Ok tt) ask_echo (λ _ _, Ok tt).

Definition argv0 : list str :=
  [lit "main.py"; lit " Thesis "; lit "what"; lit "now "].

Definition argv_demo : list str := [lit "main.py"; lit "DEMO"].

End MoreExamples.

(* ===================================================================== *)
(** * The context window as a text *)
(* ===================================================================== *)

Module ContextText.
Import Memory.

(** What a context reads like, written without the functions of the
    source: a turn is the line of the question after "User: " and the
    line of the answer after "Assistant: ", and two turns are separated
    by one empty line. *)
Definition block (t : Turn) : str :=
  [85; 115; 101; 114; 58; 32]%N ++ q t
  ++ [10%N]
  ++ [65; 115; 115; 105; 115; 116; 97; 110; 116; 58; 32]%N ++ a t.

Fixpoint blocks (turns : list Turn) : str :=
  match turns with
  | [] => []
  | [t] => block t
  | t :: rest => block t ++ [10%N; 10%N] ++ blocks rest
  end.

End ContextText.

(* ===================================================================== *)
(** * Facts about lists and slices *)
(* ===================================================================== *)

Section ListFacts.
Context {A : Type}.
Implicit Types l r : list A.

Lemma lastn_all n l : (length l ≤ n)%nat → lastn n l = l.
Proof.
  intros Hle. unfold lastn.
  replace (length l - n)%nat with 0%nat by lia. done.
Qed.

Lemma lastn_length n l : length (lastn n l) = Nat.min n (length l).
Proof. unfold lastn. rewrite length_drop. lia. Qed.

Lemma lastn_app_absorb n l r : lastn n (lastn n l ++ r) = lastn n (l ++ r).
Proof.
  unfold lastn at 1 3. rewrite !length_app, lastn_length.
  unfold lastn. set (k := (length l - n)%nat).
  rewrite <- (drop_app_le l r k) by (subst k; lia).
  rewrite drop_drop. f_equal. subst k. lia.
Qed.

Lemma slice_from_neg (d : Z) l :
  0 < d → slice_from (- d) l = lastn (Nat.min (Z.to_nat d) (length l)) l.
Proof.
  intros Hd. unfold slice_from, lastn.
  destruct (Z.ltb_spec (- d) 0) as [_|?]; [|lia].
  f_equal. lia.
Qed.
End ListFacts.

(* ===================================================================== *)
(** * Session memory: the cap and the context window *)
(* ===================================================================== *)

Section MemoryFacts.
Import Memory.
Implicit Types (st : Store) (sid : str) (d : Deque) (t : Turn).

Lemma get_history_fst sid st :
  items (_get_history sid st).1 = history st sid.
Proof.
  unfold _get_history, history. by destruct (st !! sid).
Qed.

Lemma get_history_lookup sid st :
  (_get_history sid st).2 !! sid = Some (_get_history sid st).1.
Proof.
  unfold _get_history. destruct (st !! sid) eqn:E; simpl; [done|].
  by rewrite lookup_insert_eq.
Qed.

Lemma get_history_other sid sid' st :
  sid ≠ sid' → (_get_history sid st).2 !! sid' = st !! sid'.
Proof.
  intros Hne. unfold _get_history. destruct (st !! sid); simpl; [done|].
  by rewrite lookup_insert_ne.
Qed.

Lemma get_history_ok sid st :
  store_ok st →
  maxlen (_get_history sid st).1 = _MAX_TURNS_PER_SESSION ∧
  (length (items (_get_history sid st).1) ≤ _MAX_TURNS_PER_SESSION)%nat.
Proof.
  intros Hok. unfold _get_history. destruct (st !! sid) eqn:E; simpl.
  - by apply (Hok sid).
  - split; [done|]. unfold _MAX_TURNS_PER_SESSION. lia.
Qed.

Lemma deque_append_items d t :
  (length (items d) ≤ maxlen d)%nat →
  items (deque_append d t) = lastn (maxlen d) (items d ++ [t]).
Proof.
  intros Hle. unfold deque_append, lastn. simpl.
  rewrite length_app. simpl.
  destruct (Nat.ltb_spec (maxlen d) (length (items d) + 1)).
  - f_equal. lia.
  - replace (length (items d) + 1 - maxlen d)%nat with 0%nat by lia. done.
Qed.

Lemma store_turn_same sid qq aa st :
  store_ok st →
  history (_store_turn sid qq aa st) sid =
    lastn _MAX_TURNS_PER_SESSION (history st sid ++ [mkTurn qq aa]).
Proof.
  intros Hok. unfold _store_turn.
  destruct (get_history_ok sid st Hok) as [Hm Hl].
  pose proof (get_history_fst sid st) as Hh.
  destruct (_get_history sid st) as [hist st1]. simpl in *.
  unfold history at 1. rewrite lookup_insert_eq. cbn [from_option].
  rewrite deque_append_items by lia. by rewrite Hm, Hh.
Qed.

Lemma store_turn_other sid sid' qq aa st :
  sid ≠ sid' → history (_store_turn sid qq aa st) sid' = history st sid'.
Proof.
  intros Hne. unfold _store_turn.
  pose proof (get_history_other sid sid' st Hne) as Ho.
  destruct (_get_history sid st) as [hist st1]. simpl in *.
  unfold history. by rewrite lookup_insert_ne, Ho.
Qed.

Lemma store_turn_ok sid qq aa st :
  store_ok st → store_ok (_store_turn sid qq aa st).
Proof.
  intros Hok sid' d Hd. unfold _store_turn in Hd.
  destruct (get_history_ok sid st Hok) as [Hm Hl].
  pose proof (get_history_other sid sid' st) as Ho.
  destruct (_get_history sid st) as [hist st1]. simpl in *.
  destruct (decide (sid = sid')) as [->|Hne].
  - rewrite lookup_insert_eq in Hd. injection Hd as <-.
    split; [done|]. rewrite deque_append_items by lia.
    rewrite lastn_length, Hm. lia.
  - rewrite lookup_insert_ne in Hd by done. rewrite Ho in Hd by done.
    by apply (Hok sid').
Qed.

Lemma store_ok_empty : store_ok ∅.
Proof. intros sid d Hd. by rewrite lookup_empty in Hd. Qed.

Lemma history_bounded st sid :
  store_ok st → (length (history st sid) ≤ _MAX_TURNS_PER_SESSION)%nat.
Proof.
  intros Hok. unfold history. destruct (st !! sid) eqn:E; simpl.
  - by apply (Hok sid).
  - lia.
Qed.

Lemma run_appends_ok ops st : store_ok st → store_ok (run_appends ops st).
Proof.
  revert st. induction ops as [|op ops IH]; intros st Hok; [done|].
  apply IH. by apply store_turn_ok.
Qed.

(** What a session holds after a run of appends: the last eighty of
    what it held followed by what it was sent. *)
Lemma run_appends_history ops st sid :
  store_ok st →
  history (run_appends ops st) sid =
    lastn _MAX_TURNS_PER_SESSION (history st sid ++ turns_for sid ops).
Proof.
  revert st. induction ops as [|op ops IH]; intros st Hok.
  - simpl. unfold turns_for. simpl. rewrite app_nil_r.
    symmetry. apply lastn_all. by apply history_bounded.
  - change (run_appends (op :: ops) st)
      with (run_appends ops (_store_turn (ap_sid op) (ap_q op) (ap_a op) st)).
    rewrite IH by (by apply store_turn_ok).
    unfold turns_for. rewrite filter_cons.
    destruct (decide (ap_sid op = sid)) as [<-|Hne].
    + rewrite store_turn_same by done. rewrite lastn_app_absorb.
      by rewrite <- app_assoc.
    + by rewrite store_turn_other.
Qed.

(** C1. From the empty store, no run of [_store_turn] calls leaves any
    session with more than 80 turns; a session holds the last 80 of the
    turns it was sent, in arrival order; so 85 appends to one session,
    however interleaved with appends to other sessions, leave exactly
    the 80 newest, the 5 oldest being gone. *)
Theorem session_cap_fifo :
  (∀ ops sid, (length (history (run_appends ops ∅) sid) ≤ 80)%nat) ∧
  (∀ ops sid,
     history (run_appends ops ∅) sid = lastn 80 (turns_for sid ops)) ∧
  (∀ ops sid oldest rest,
     turns_for sid ops = oldest ++ rest →
     length oldest = 5%nat → length rest = 80%nat →
     history (run_appends ops ∅) sid = rest).
Proof.
  assert (Hmain : ∀ ops sid,
    history (run_appends ops ∅) sid = lastn 80 (turns_for sid ops)).
  { intros ops sid.
    rewrite run_appends_history by apply store_ok_empty.
    unfold history. by rewrite lookup_empty. }
  split; [|split].
  - intros ops sid. rewrite Hmain, lastn_length. lia.
  - exact Hmain.
  - intros ops sid oldest rest Hsplit H5 H80.
    rewrite Hmain, Hsplit. unfold lastn. rewrite length_app.
    replace (length oldest + length rest - 80)%nat with (length oldest) by lia.
    by rewrite drop_app_length.
Qed.

Lemma clamp_int_range x lo hi : lo ≤ hi → lo ≤ _clamp_int x lo hi ≤ hi.
Proof. unfold _clamp_int. lia. Qed.

Lemma clamp_int_idem x lo hi :
  lo ≤ hi → _clamp_int (_clamp_int x lo hi) lo hi = _clamp_int x lo hi.
Proof. unfold _clamp_int. lia. Qed.

Lemma build_context_clamped sid depth st :
  _build_context sid depth st =
    _build_context sid (_clamp_int depth 0 10) st.
Proof. unfold _build_context. by rewrite clamp_int_idem. Qed.

Lemma clamp_int_max_min depth :
  _clamp_int depth 0 10 = Z.max 0 (Z.min 10 depth).
Proof. done. Qed.

Lemma blocks_join (turns : list Turn) :
  join blank_line (fmt_turn <$> turns) = ContextText.blocks turns.
Proof.
  induction turns as [|t turns IH]; [done|].
  destruct turns as [|t' turns]; [reflexivity|].
  change (join blank_line (fmt_turn <$> t :: t' :: turns))
    with (fmt_turn t ++ blank_line ++ join blank_line (fmt_turn <$> t' :: turns)).
  rewrite IH. reflexivity.
Qed.

(** C5. [_build_context] works on the depth brought into [0, 10], that
    is on [max 0 (min 10 depth)], so every depth gives what that value
    gives and 15 gives what 10 gives; the text is empty when that value
    is 0 or the session holds no turn; otherwise it is the last
    [min depth length] turns of the session, oldest first, each as the
    line of the question after "User: " and the line of the answer after
    "Assistant: ", with one empty line between two turns. *)
Theorem build_context_window sid depth st :
  let d := Z.max 0 (Z.min 10 depth) in
  let h := history st sid in
  0 ≤ d ≤ 10 ∧
  (0 ≤ depth ≤ 10 → d = depth) ∧
  _build_context sid depth st = _build_context sid d st ∧
  _build_context sid 15 st = _build_context sid 10 st ∧
  (d = 0 ∨ h = [] → (_build_context sid depth st).1 = []) ∧
  (0 < d → h ≠ [] →
     (_build_context sid depth st).1 =
       ContextText.blocks (lastn (Nat.min (Z.to_nat d) (length h)) h)).
Proof.
  intros d h. split; [subst d; lia|]. split; [subst d; lia|].
  split; [apply build_context_clamped|]. split; [done|].
  pose proof (get_history_fst sid st) as Hh. fold h in Hh.
  unfold _build_context. rewrite clamp_int_max_min. fold d.
  destruct (_get_history sid st) as [hist st1]. simpl in Hh.
  split.
  - intros [Hd|Hnil].
    + rewrite Hd. done.
    + destruct (d <=? 0); [done|]. rewrite Hh, Hnil. done.
  - intros Hd Hne. destruct (Z.leb_spec d 0) as [?|_]; [lia|].
    rewrite Hh. destruct h as [|t h'] eqn:Eh; [done|].
    cbn [snd fst]. rewrite slice_from_neg by done.
    apply blocks_join.
Qed.

(** C6, as the code has it. [_build_context] never changes the turns of
    any session and never touches a deque the store already holds; the
    store itself is unchanged when the session is known or the clamped
    depth is 0, and otherwise gains the session with an empty deque,
    through the lazy creation in [_get_history]. *)
Theorem build_context_frame sid depth st :
  let st' := (_build_context sid depth st).2 in
  (∀ sid', history st' sid' = history st sid') ∧
  (∀ sid' d, st !! sid' = Some d → st' !! sid' = Some d) ∧
  (is_Some (st !! sid) ∨ _clamp_int depth 0 10 = 0 → st' = st) ∧
  (st !! sid = None → 0 < _clamp_int depth 0 10 →
     st' = <[sid := mkDeque _MAX_TURNS_PER_SESSION []]> st).
Proof.
  intros st'.
  assert (Hst' : st' = if _clamp_int depth 0 10 <=? 0 then st
                       else (_get_history sid st).2).
  { subst st'. unfold _build_context.
    destruct (_clamp_int depth 0 10 <=? 0); [done|].
    destruct (_get_history sid st) as [hist st1].
    by destruct (items hist). }
  pose proof (clamp_int_range depth 0 10 ltac:(lia)) as Hr.
  rewrite Hst'. clear Hst' st'. unfold _get_history.
  destruct (Z.leb_spec (_clamp_int depth 0 10) 0) as [Hle|Hlt].
  - repeat split; try done. lia.
  - destruct (st !! sid) as [d0|] eqn:E; simpl.
    + repeat split; try done.
    + split; [|split; [|split]].
      * intros sid'. unfold history.
        destruct (decide (sid = sid')) as [<-|Hne].
        -- by rewrite lookup_insert_eq, E.
        -- by rewrite lookup_insert_ne.
      * intros sid' d Hd. rewrite lookup_insert_ne; [done|congruence].
      * intros [[? ?]|?]; [done|lia].
      * done.
Qed.
End MemoryFacts.

(* ===================================================================== *)
(** * The slicer and the stream *)
(* ===================================================================== *)

Section ChunkFacts.
Import Memory.
Context {A : Type}.
Implicit Types s : list A.

Lemma strides_S size n s :
  strides size (S n) s = take size s :: strides size n (drop size s).
Proof.
  unfold strides. simpl. f_equal.
  rewrite <- fmap_S_seq, <- list_fmap_compose.
  apply list_fmap_ext. intros _ j _. simpl.
  by rewrite drop_drop.
Qed.

Lemma strides_concat size n s :
  (length s ≤ n * size)%nat → concat (strides size n s) = s.
Proof.
  revert s. induction n as [|n IH]; intros s Hlen.
  - destruct s; [done|simpl in Hlen; lia].
  - rewrite strides_S. simpl. rewrite IH.
    + apply take_drop.
    + rewrite length_drop. lia.
Qed.

Lemma strides_lengths size n s :
  length <$> strides size n s =
    (λ j, Nat.min size (length s - j * size))%nat <$> seq 0 n.
Proof.
  unfold strides. rewrite <- list_fmap_compose.
  apply list_fmap_ext. intros _ j _. simpl.
  by rewrite length_take, length_drop.
Qed.

Lemma strides_lookup size n s j :
  (j < n)%nat → strides size n s !! j = Some (slice (j * size) (j * size + size) s).
Proof.
  intros Hj. unfold strides, slice. rewrite list_lookup_fmap.
  rewrite lookup_seq_lt by done. simpl.
  do 2 f_equal. lia.
Qed.

Lemma chunk_text_strides s size :
  (0 < size)%nat →
  _chunk_text s size =
    Some (strides size (Nat.div (length s + size - 1) size) s).
Proof.
  intros Hsize. unfold _chunk_text, range_step, strides.
  destruct (Nat.eqb_spec size 0) as [?|_]; [lia|].
  destruct s as [|x s'].
  - simpl. rewrite Nat.div_small by lia. done.
  - f_equal. rewrite <- list_fmap_compose.
    apply list_fmap_ext. intros _ j _. unfold slice. simpl.
    f_equal. lia.
Qed.

Lemma ceil_div_bound len size :
  (0 < size)%nat → (len ≤ Nat.div (len + size - 1) size * size)%nat.
Proof.
  intros Hsize.
  pose proof (Nat.div_mod (len + size - 1) size ltac:(lia)) as Hdm.
  pose proof (Nat.mod_upper_bound (len + size - 1) size ltac:(lia)).
  nia.
Qed.

Lemma chunk_text_concat s size chunks :
  _chunk_text s size = Some chunks → concat chunks = s.
Proof.
  destruct (decide (size = 0)%nat) as [->|Hne].
  - unfold _chunk_text. destruct s; [|done]. by intros [= <-].
  - rewrite chunk_text_strides by lia. intros [= <-].
    apply strides_concat, ceil_div_bound. lia.
Qed.
End ChunkFacts.

Section StreamFacts.
Import Memory Query Server.
Implicit Types (w : World) (env : Env) (req : AskRequest).

Lemma world_eta w : mkWorld (sessions w) (calls w) (wire w) = w.
Proof. by destruct w. Qed.

Lemma for_each_emit_delta (chunks : list str) w :
  for_each chunks (λ ch, emit (Delta ch)) w =
    (Ok tt, mkWorld (sessions w) (calls w) (wire w ++ (Delta <$> chunks))).
Proof.
  revert w. induction chunks as [|ch chunks IH]; intros w; simpl.
  - unfold ret. by rewrite app_nil_r, world_eta.
  - unfold bind, emit. rewrite IH. simpl. by rewrite <- app_assoc.
Qed.

Lemma remember_ok req ans w :
  ∃ st, remember req ans w = (Ok tt, mkWorld st (calls w) (wire w)).
Proof.
  unfold remember. destruct (session_of req).
  - eexists. unfold with_sessions. reflexivity.
  - exists (sessions w). unfold ret. by rewrite world_eta.
Qed.

(** [ask] touches neither the session store nor the stream. *)
Lemma ask_frame env ag qu kk w :
  sessions (ask env ag qu kk w).2 = sessions w ∧
  wire (ask env ag qu kk w).2 = wire w.
Proof.
  unfold ask, bind, lift, log_call, ret. simpl.
  destruct (retriever_invoke env _ _ _); simpl; [|done].
  destruct (get_chat ag); simpl; [|done].
  destruct (llm_invoke env _ _ _); simpl; [|done].
  destruct (format_sources _ _ _); simpl; done.
Qed.

(** What [gen] does once [ask] has returned. *)
Lemma gen_after_ask env req qfm w out w1 :
  ask env (agent req) qfm (k req) w = (Ok out, w1) →
  ∃ st chunks,
    _chunk_text (answer out) 140 = Some chunks ∧
    gen env req qfm w =
      (Ok tt, mkWorld st (calls w1)
                (wire w ++ (Delta <$> chunks) ++ [Done (sources out)])).
Proof.
  intros Hask.
  pose proof (ask_frame env (agent req) qfm (k req) w) as [_ Hw].
  rewrite Hask in Hw. simpl in Hw.
  destruct (remember_ok req (answer out) w1) as [st Hrem].
  exists st. eexists. split.
  - apply chunk_text_strides. lia.
  - unfold gen, try_except, bind. rewrite Hask, Hrem.
    rewrite chunk_text_strides by lia. unfold lift.
    rewrite for_each_emit_delta. unfold emit. simpl.
    by rewrite Hw, <- app_assoc.
Qed.

Lemma gen_after_raise env req qfm w e w1 :
  ask env (agent req) qfm (k req) w = (Raise e, w1) →
  gen env req qfm w =
    (Ok tt, mkWorld (sessions w) (calls w1)
              (wire w ++ [ErrorEvent (exn_str e)])).
Proof.
  intros Hask.
  pose proof (ask_frame env (agent req) qfm (k req) w) as [Hs Hw].
  rewrite Hask in Hs, Hw. simpl in Hs, Hw.
  unfold gen, try_except, bind. rewrite Hask. unfold emit.
  by rewrite Hs, Hw.
Qed.

(** C2. Once [ask] has returned an answer, [gen] writes one delta per
    140-character stride of the answer, the i-th delta being the slice
    from [140 i] to [140 i + 140], in order, so that the payloads
    concatenate to the answer, and then exactly one done event with the
    source listing; an answer of 305 characters gives three deltas of
    140, 140 and 25 characters. *)
Theorem stream_round_trip env req qfm w out w1 :
  ask env (agent req) qfm (k req) w = (Ok out, w1) →
  ∃ chunks,
    _chunk_text (answer out) 140 = Some chunks ∧
    (gen env req qfm w).1 = Ok tt ∧
    wire (gen env req qfm w).2 =
      wire w ++ (Delta <$> chunks) ++ [Done (sources out)] ∧
    concat chunks = answer out ∧
    length chunks = Nat.div (length (answer out) + 139) 140 ∧
    (∀ i, (i < length chunks)%nat →
       chunks !! i = Some (slice (i * 140) (i * 140 + 140) (answer out))) ∧
    (length (answer out) = 305%nat →
       length <$> chunks = [140; 140; 25]%nat).
Proof.
  intros Hask.
  destruct (gen_after_ask env req qfm w out w1 Hask) as (st & chunks & Hc & Hg).
  exists chunks. rewrite Hg. cbn [fst snd wire].
  split; [done|]. split; [done|]. split; [done|].
  split; [by eapply chunk_text_concat|].
  rewrite chunk_text_strides in Hc by lia.
  replace (length (answer out) + 140 - 1)%nat
    with (length (answer out) + 139)%nat in Hc by lia.
  remember (Nat.div (length (answer out) + 139) 140) as n eqn:Hn.
  injection Hc as <-.
  assert (Hlen : length (strides 140 n (answer out)) = n).
  { unfold strides. by rewrite length_fmap, length_seq. }
  split; [done|]. split.
  - intros i Hi. apply strides_lookup. by rewrite Hlen in Hi.
  - intros H305. rewrite strides_lengths, Hn, H305. reflexivity.
Qed.

(** Whatever [ask] does, [gen] writes either one error event or some
    deltas followed by one done event. *)
Lemma gen_events env req qfm w :
  (gen env req qfm w).1 = Ok tt ∧
  ∃ evs, wire (gen env req qfm w).2 = wire w ++ evs ∧
    ((∃ msg, evs = [ErrorEvent msg]) ∨
     (∃ chunks srcs, evs = (Delta <$> chunks) ++ [Done srcs])).
Proof.
  destruct (ask env (agent req) qfm (k req) w) as [[out|e] w1] eqn:Hask.
  - destruct (gen_after_ask env req qfm w out w1 Hask) as (st & chunks & _ & ->).
    split; [done|]. eexists. split; [done|]. right. by eexists _, _.
  - rewrite (gen_after_raise env req qfm w e w1 Hask).
    split; [done|]. eexists. split; [done|]. left. by eexists.
Qed.

Lemma index_ready_false env :
  vectorstore_dir env = None ∨ vectorstore_dir env = Some [] →
  index_ready env = false.
Proof. unfold index_ready. by intros [-> | ->]. Qed.

(** [ask] asks the index before it asks [get_chat] for the model: called
    on its own with an agent that [get_chat] does not know, it has
    retrieved by the time it raises.  The endpoints never call it so. *)
Remark ask_retrieves_before_get_chat env ag qu kk w docs :
  ag ∉ AGENTS →
  retriever_invoke env qu kk (Z.max 24 (kk * 3)) = Ok docs →
  ask env ag qu kk w =
    (Raise (ValueError (lit "Unknown agent: " ++ ag)),
     mkWorld (sessions w)
             (calls w ++ [Retrieval qu kk (Z.max 24 (kk * 3))]) (wire w)).
Proof.
  intros Hag Hdocs. unfold ask, bind, lift, log_call. simpl.
  rewrite Hdocs. unfold get_chat, AGENTS in *.
  repeat case_decide; subst; try done; exfalso; apply Hag; set_solver.
Qed.

(** C3, as the code has it. A request whose agent is none of thesis,
    python and reviewer is refused by both endpoints at their first
    step: [api_ask] answers with the failure that names the three
    agents, [api_ask_stream] raises it as an HTTP 400, and in both cases
    the world is what it was, so no session was created or extended and
    neither the index nor the model was called; [get_chat], the router,
    knows no model for such an agent.  [ask] itself, called with such an
    agent, asks the index first: it has made the retrieval call, and no
    other, when it raises, with the unknown agent error of [get_chat] if
    the retriever returned and with the exception of the retriever
    otherwise; it never touches the sessions or the stream. *)
Theorem unknown_agent_rejected env req w :
  agent req ∉ AGENTS →
  api_ask env req w =
    (Ok (mkJSON false None None
           (Some (exn_str (HTTPException 400 agent_detail)))), w) ∧
  api_ask_stream env req w = (Raise (HTTPException 400 agent_detail), w) ∧
  get_chat (agent req) =
    Raise (ValueError (lit "Unknown agent: " ++ agent req)) ∧
  (∀ qu kk w',
     sessions (ask env (agent req) qu kk w').2 = sessions w' ∧
     wire (ask env (agent req) qu kk w').2 = wire w' ∧
     calls (ask env (agent req) qu kk w').2 =
       calls w' ++ [Retrieval qu kk (Z.max 24 (kk * 3))] ∧
     (∀ docs,
        retriever_invoke env qu kk (Z.max 24 (kk * 3)) = Ok docs →
        (ask env (agent req) qu kk w').1 =
          Raise (ValueError (lit "Unknown agent: " ++ agent req))) ∧
     (∀ e,
        retriever_invoke env qu kk (Z.max 24 (kk * 3)) = Raise e →
        (ask env (agent req) qu kk w').1 = Raise e)).
Proof.
  intros Hag. split; [|split; [|split]].
  - unfold api_ask, try_except. by rewrite decide_False.
  - unfold api_ask_stream. by rewrite decide_False.
  - unfold get_chat, AGENTS in *.
    repeat case_decide; try done; exfalso; apply Hag; set_solver.
  - intros qu kk w'.
    destruct (retriever_invoke env qu kk (Z.max 24 (kk * 3)))
      as [docs|e] eqn:Hr.
    + rewrite (ask_retrieves_before_get_chat env (agent req) qu kk w' docs
                 Hag Hr).
      cbn [fst snd sessions calls wire].
      split; [done|]. split; [done|]. split; [done|].
      split; [done|]. by intros e [=].
    + assert (Hask : ask env (agent req) qu kk w' =
                (Raise e, mkWorld (sessions w')
                  (calls w' ++ [Retrieval qu kk (Z.max 24 (kk * 3))])
                  (wire w'))).
      { unfold ask, bind, lift, log_call. cbv beta iota zeta.
        by rewrite Hr. }
      rewrite Hask. cbn [fst snd sessions calls wire].
      split; [done|]. split; [done|]. split; [done|].
      split; [by intros docs [=]|]. by intros e' [= ->].
Qed.

(** C4, as the code has it. When [ask] raises, [gen] writes exactly one
    error event with the text of the exception and stops; whatever
    happens the stream of [gen] is one error event or deltas and one
    done event, never both; and for a request that names one of the
    three agents, an index directory that is absent or empty makes
    [api_ask] answer the index failure and [api_ask_stream] write it as
    its only event, with no call to the index or the model and no
    change to the sessions. *)
Theorem stream_error_or_done env req w :
  (∀ qfm e w1,
     ask env (agent req) qfm (k req) w = (Raise e, w1) →
     (gen env req qfm w).1 = Ok tt ∧
     wire (gen env req qfm w).2 = wire w ++ [ErrorEvent (exn_str e)]) ∧
  (∀ qfm, ∃ evs,
     wire (gen env req qfm w).2 = wire w ++ evs ∧
     ((∃ msg, evs = [ErrorEvent msg]) ∨
      (∃ chunks srcs, evs = (Delta <$> chunks) ++ [Done srcs]))) ∧
  (agent req ∈ AGENTS →
   vectorstore_dir env = None ∨ vectorstore_dir env = Some [] →
   api_ask env req w =
     (Ok (mkJSON false None None (Some index_missing)), w) ∧
   api_ask_stream env req w =
     (Ok tt, mkWorld (sessions w) (calls w)
               (wire w ++ [ErrorEvent index_missing]))).
Proof.
  split; [|split].
  - intros qfm e w1 Hask.
    by rewrite (gen_after_raise env req qfm w e w1 Hask).
  - intros qfm. apply gen_events.
  - intros Hag Hdir. apply index_ready_false in Hdir.
    unfold api_ask, api_ask_stream, try_except.
    rewrite decide_True by done. rewrite Hdir. simpl.
    unfold ret, err_gen, emit. split; [done|]. by rewrite decide_True.
Qed.
End StreamFacts.

(* ===================================================================== *)
(** * The source listing *)
(* ===================================================================== *)

Section FirstSeen.
Context {A K : Type} `{EqDecision K} (key : A → K).
Implicit Types l : list A.

Lemma first_seen_snoc l x :
  first_seen key (l ++ [x]) =
    first_seen key l ++ (if decide (key x ∈ key <$> l) then [] else [x]).
Proof.
  induction l as [|y l IH]; cbn [first_seen fmap list_fmap app].
  - rewrite decide_False; [done|]. apply not_elem_of_nil.
  - rewrite IH, filter_app. do 2 f_equal.
    destruct (decide (key x = key y)) as [Heq|Hne].
    + rewrite (decide_True (P := key x ∈ key y :: (key <$> l)))
        by (rewrite Heq; apply list_elem_of_here).
      case_decide; [done|]. by rewrite filter_cons_False by (by intros ?).
    + destruct (decide (key x ∈ key <$> l)) as [Hin|Hnin].
      * rewrite decide_True by (by apply list_elem_of_further). done.
      * rewrite decide_False by (rewrite elem_of_cons; tauto).
        by rewrite filter_cons_True.
Qed.

Lemma filter_all (P : A → Prop) `{∀ x, Decision (P x)} l :
  (∀ x, P x) → filter P l = l.
Proof.
  intros HP. induction l as [|x l IH]; [done|].
  by rewrite filter_cons_True, IH.
Qed.

Lemma first_seen_sublist l : first_seen key l `sublist_of` l.
Proof.
  induction l as [|x l IH]; simpl; [done|].
  apply sublist_skip. etrans; [apply sublist_filter|done].
Qed.
End FirstSeen.

Section ListingFacts.
Import Query.
Variable ios : str → Exc Z.
Implicit Types (d : Document) (docs : list Document).

(** The loop, started with any set of seen keys and any lines. *)
Lemma format_loop_first_seen docs (seen : gset (list N)) lines kls :
  exc_mapM (cite ios 220) docs = Ok kls →
  format_loop ios 220 docs seen lines =
    Ok (lines ++ (snd <$> filter (λ kl, kl.1 ∉ seen) (first_seen fst kls))).
Proof.
  revert seen lines kls.
  induction docs as [|d docs IH]; intros seen lines kls Hk; simpl in *.
  - injection Hk as <-. simpl. by rewrite app_nil_r.
  - destruct (cite ios 220 d) as [[k l]|e]; simpl in Hk; [|done].
    destruct (exc_mapM (cite ios 220) docs) as [kls'|e]; simpl in Hk; [|done].
    injection Hk as <-. simpl.
    destruct (decide (k ∈ seen)) as [Hin|Hnin].
    + rewrite (IH seen lines kls' eq_refl).
      rewrite filter_cons_False by (simpl; tauto).
      rewrite list_filter_filter. do 3 f_equal.
      apply list_filter_iff. intros [k' l']. simpl. split; [|tauto].
      intros Hk'. split; [done|]. by intros ->.
    + rewrite (IH ({[k]} ∪ seen) (lines ++ [l]) kls' eq_refl).
      rewrite filter_cons_True by done. simpl.
      rewrite list_filter_filter, <- app_assoc. simpl. do 4 f_equal.
      apply list_filter_iff. intros [k' l']. simpl.
      rewrite not_elem_of_union, not_elem_of_singleton. tauto.
Qed.

Lemma format_loop_raise docs (seen : gset (list N)) lines e :
  exc_mapM (cite ios 220) docs = Raise e →
  format_loop ios 220 docs seen lines = Raise e.
Proof.
  revert seen lines.
  induction docs as [|d docs IH]; intros seen lines Hk; simpl in *; [done|].
  destruct (cite ios 220 d) as [[k l]|e']; simpl in Hk; [|congruence].
  destruct (exc_mapM (cite ios 220) docs) as [kls'|e']; simpl in Hk; [done|].
  injection Hk as ->. case_decide; by apply IH.
Qed.

Lemma format_sources_first_seen docs :
  format_sources ios docs 220 =
    exc_bind (exc_mapM (cite ios 220) docs)
      (λ kls, Ok (join nl (snd <$> first_seen fst kls))).
Proof.
  unfold format_sources.
  destruct (exc_mapM (cite ios 220) docs) as [kls|e] eqn:Hk.
  - rewrite (format_loop_first_seen docs ∅ [] kls Hk). simpl.
    do 3 f_equal. apply filter_all. intros kl. set_solver.
  - by rewrite (format_loop_raise docs ∅ [] e Hk).
Qed.

Lemma cite_no_page d :
  page_of d = PNone →
  cite ios 220 d =
    Ok (py_str (source_of d),
        lit "- " ++ py_str (source_of d) ++ lit ": "
          ++ snippet_of 220 (page_content d)).
Proof. intros Hp. unfold cite. by rewrite Hp. Qed.

Lemma cite_int_page d p :
  page_of d = PInt p →
  cite ios 220 d =
    Ok (py_str (source_of d) ++ lit ":" ++ str_of_int p,
        lit "- " ++ py_str (source_of d) ++ lit " (p." ++ str_of_int (p + 1)
          ++ lit "): " ++ snippet_of 220 (page_content d)).
Proof. intros Hp. unfold cite. by rewrite Hp. Qed.

Lemma same_key_one_line d1 d2 k l1 l2 :
  cite ios 220 d1 = Ok (k, l1) → cite ios 220 d2 = Ok (k, l2) →
  format_sources ios [d1; d2] 220 = format_sources ios [d1] 220.
Proof.
  intros H1 H2. rewrite !format_sources_first_seen. simpl.
  rewrite H1, H2. simpl. by rewrite filter_cons_False by (simpl; tauto).
Qed.

(** C8. The listing is made of the citations of the chunks, taken in
    order, of which a chunk keeps its line exactly when no earlier chunk
    has its key, joined by newlines.  The key is source, colon and page
    for a chunk with a page and the source alone otherwise; the line
    shows the page plus one, so page 2 reads (p.3); two chunks with the
    same source and page give one line; the snippet is the cleaned text
    when that has at most 220 characters and else its first 220
    characters followed by the ellipsis. *)
Theorem source_listing docs :
  format_sources ios docs 220 =
    exc_bind (exc_mapM (cite ios 220) docs)
      (λ kls, Ok (join nl (snd <$> first_seen fst kls))) ∧
  (∀ (kls : list (list N * list N)) kl,
     first_seen fst (kls ++ [kl]) =
       first_seen fst kls ++ (if decide (kl.1 ∈ kls.*1) then [] else [kl])) ∧
  (∀ kls : list (list N * list N), first_seen fst kls `sublist_of` kls) ∧
  (∀ d, page_of d = PNone →
     cite ios 220 d =
       Ok (py_str (source_of d),
           lit "- " ++ py_str (source_of d) ++ lit ": "
             ++ snippet_of 220 (page_content d))) ∧
  (∀ d p, page_of d = PInt p →
     cite ios 220 d =
       Ok (py_str (source_of d) ++ lit ":" ++ str_of_int p,
           lit "- " ++ py_str (source_of d) ++ lit " (p."
             ++ str_of_int (p + 1) ++ lit "): "
             ++ snippet_of 220 (page_content d))) ∧
  (∀ d, page_of d = PInt 2 →
     snd <$> cite_ok ios d =
       Some (lit "- " ++ py_str (source_of d) ++ lit " (p.3): "
               ++ snippet_of 220 (page_content d))) ∧
  (∀ d1 d2 p,
     source_of d1 = source_of d2 → page_of d1 = PInt p → page_of d2 = PInt p →
     format_sources ios [d1; d2] 220 = format_sources ios [d1] 220) ∧
  (∀ c, (length (clean c) ≤ 220)%nat → snippet_of 220 c = clean c) ∧
  (∀ c, (220 < length (clean c))%nat →
     snippet_of 220 c = take 220 (clean c) ++ ellipsis ∧
     length (snippet_of 220 c) = 221%nat).
Proof.
  split; [apply format_sources_first_seen|].
  split; [intros kls kl; apply first_seen_snoc|].
  split; [intros kls; apply first_seen_sublist|].
  split; [apply cite_no_page|]. split; [apply cite_int_page|].
  split; [|split; [|split]].
  - intros d Hp. unfold cite_ok. rewrite (cite_int_page d 2 Hp).
    reflexivity.
  - intros d1 d2 p Hs Hp1 Hp2.
    eapply same_key_one_line; [by apply cite_int_page|].
    rewrite (cite_int_page d2 p Hp2), Hs. reflexivity.
  - intros c Hle. unfold snippet_of.
    destruct (Nat.ltb_spec 220 (length (clean c))); [lia|done].
  - intros c Hlt. unfold snippet_of.
    destruct (Nat.ltb_spec 220 (length (clean c))); [|lia].
    split; [done|]. rewrite length_app, length_take.
    change (length ellipsis) with 1%nat. lia.
Qed.

(** C10. A chunk with source [S] and page [p] and a chunk with no page
    whose source is the text of [S], a colon and [p] differ in source
    and page but have the same key; listed after the first, the second
    loses its line, which it has when listed alone. *)
Theorem dedup_key_collision (S : str) (p : Z) (c1 c2 : str) :
  let d1 := mkDocument c1
              (<[lit "source" := PStr S]> (<[lit "page" := PInt p]> ∅)) in
  let d2 := mkDocument c2
              (<[lit "source" := PStr (S ++ lit ":" ++ str_of_int p)]> ∅) in
  (source_of d1, page_of d1) ≠ (source_of d2, page_of d2) ∧
  fst <$> cite_ok ios d1 = Some (S ++ lit ":" ++ str_of_int p) ∧
  fst <$> cite_ok ios d2 = Some (S ++ lit ":" ++ str_of_int p) ∧
  format_sources ios [d1; d2] 220 = format_sources ios [d1] 220 ∧
  format_sources ios [d1] 220 =
    Ok (lit "- " ++ S ++ lit " (p." ++ str_of_int (p + 1) ++ lit "): "
          ++ snippet_of 220 c1) ∧
  format_sources ios [d2] 220 =
    Ok (lit "- " ++ (S ++ lit ":" ++ str_of_int p) ++ lit ": "
          ++ snippet_of 220 c2).
Proof.
  intros d1 d2.
  assert (Hs1 : source_of d1 = PStr S).
  { unfold source_of, dict_get_or. simpl. by rewrite lookup_insert_eq. }
  assert (Hp1 : page_of d1 = PInt p).
  { unfold page_of, dict_get_or. simpl.
    rewrite lookup_insert_ne by (by vm_compute).
    by rewrite lookup_insert_eq. }
  assert (Hs2 : source_of d2 = PStr (S ++ lit ":" ++ str_of_int p)).
  { unfold source_of, dict_get_or. simpl. by rewrite lookup_insert_eq. }
  assert (Hp2 : page_of d2 = PNone).
  { unfold page_of, dict_get_or. simpl.
    rewrite lookup_insert_ne by (by vm_compute).
    by rewrite lookup_empty. }
  pose proof (cite_int_page d1 p Hp1) as C1.
  pose proof (cite_no_page d2 Hp2) as C2.
  rewrite Hs1 in C1. rewrite Hs2 in C2. simpl in C1, C2.
  split; [rewrite Hp1, Hp2; congruence|].
  unfold cite_ok. rewrite C1, C2.
  split; [done|]. split; [done|].
  split; [by eapply same_key_one_line|].
  rewrite !format_sources_first_seen. simpl. rewrite C1, C2. done.
Qed.
End ListingFacts.

(* ===================================================================== *)
(** * Metadata at ingestion: scope and source *)
(* ===================================================================== *)

Section PrettyFacts.
Lemma pretty_N_go_nonempty x s : s ≠ EmptyString → pretty_N_go x s ≠ EmptyString.
Proof.
  revert s. induction (N.lt_wf_0 x) as [x _ IH]; intros s Hs.
  destruct (decide (x = 0)%N) as [->|Hx].
  - by rewrite pretty_N_go_0.
  - rewrite pretty_N_go_step by lia. apply IH; [|done].
    apply N.div_lt; lia.
Qed.

Lemma pretty_N_nonempty (x : N) : pretty x ≠ EmptyString.
Proof.
  unfold pretty, pretty_N. case_decide; [done|].
  rewrite pretty_N_go_step by lia. by apply pretty_N_go_nonempty.
Qed.

Lemma lit_nonempty s : s ≠ EmptyString → lit s ≠ [].
Proof. by destruct s. Qed.

Lemma str_of_int_nonempty z : str_of_int z ≠ [].
Proof.
  unfold str_of_int. apply lit_nonempty.
  unfold pretty, pretty_Z. destruct z as [|x|x]; [done| |done].
  apply pretty_N_nonempty.
Qed.

End PrettyFacts.

Section IngestFacts.
Import Ingest.
Implicit Types (env : PathEnv) (md : gmap (list N) pyval) (d : Document).

Lemma relative_to_below root top rest :
  relative_to (root ++ top :: rest) root = Ok (top :: rest).
Proof.
  unfold relative_to.
  rewrite decide_True by (by rewrite take_app_length).
  by rewrite drop_app_length.
Qed.

Lemma relative_to_self root : relative_to root root = Ok [].
Proof.
  unfold relative_to.
  rewrite decide_True by (by rewrite firstn_all).
  by rewrite drop_all.
Qed.

(** C7. The scope is a function of the metadata and of what the file
    system says: when the source resolves to a path below the corpus
    root, it is internal if the first segment below the root is
    internal in any letter case, public if it is public in any letter
    case, and unknown otherwise; it is unknown when the source resolves
    to the root itself or outside it, when resolving raises and when
    the source is not a string; nothing is raised, and the scope ends
    up under the key kb_scope. *)
Theorem scope_from_first_segment env md :
  (∀ s top rest,
     dict_get_or md (lit "source") (PStr []) = PStr s →
     resolve env s = Ok (kb_root env ++ top :: rest) →
     kb_scope env md =
       if decide (lower top = lit "internal") then lit "internal"
       else if decide (lower top = lit "public") then lit "public"
       else lit "unknown") ∧
  (∀ s,
     dict_get_or md (lit "source") (PStr []) = PStr s →
     resolve env s = Ok (kb_root env) →
     kb_scope env md = lit "unknown") ∧
  (∀ s abs,
     dict_get_or md (lit "source") (PStr []) = PStr s →
     resolve env s = Ok abs →
     take (length (kb_root env)) abs ≠ kb_root env →
     kb_scope env md = lit "unknown") ∧
  (∀ s e,
     dict_get_or md (lit "source") (PStr []) = PStr s →
     resolve env s = Raise e →
     kb_scope env md = lit "unknown") ∧
  ((∀ s, dict_get_or md (lit "source") (PStr []) ≠ PStr s) →
     kb_scope env md = lit "unknown") ∧
  kb_scope env md ∈ [lit "internal"; lit "public"; lit "unknown"] ∧
  (∀ d, metadata (tag_document env d) !! lit "kb_scope" =
          Some (PStr (kb_scope env (normalize_source (metadata d))))) ∧
  lower (lit "INTERNAL") = lit "internal" ∧
  lower (lit "Internal") = lit "internal" ∧
  lower (lit "PUBLIC") = lit "public" ∧
  lower (lit "x.md") ≠ lit "internal" ∧
  lower (lit "x.md") ≠ lit "public".
Proof.
  split; [|split; [|split; [|split; [|split; [|split; [|split]]]]]].
  - intros s top rest Hs Hr. unfold kb_scope, scope_try.
    rewrite Hs. simpl. rewrite Hr. simpl.
    by rewrite relative_to_below.
  - intros s Hs Hr. unfold kb_scope, scope_try.
    rewrite Hs. simpl. rewrite Hr. simpl.
    by rewrite relative_to_self.
  - intros s abs Hs Hr Hout. unfold kb_scope, scope_try.
    rewrite Hs. simpl. rewrite Hr. simpl.
    unfold relative_to. by rewrite decide_False.
  - intros s e Hs Hr. unfold kb_scope, scope_try.
    rewrite Hs. simpl. by rewrite Hr.
  - intros Hs. unfold kb_scope, scope_try.
    destruct (dict_get_or md (lit "source") (PStr [])) as [|s|z] eqn:E;
      [done| |done].
    by destruct (Hs s).
  - unfold kb_scope. destruct (scope_try env md) as [sc|e] eqn:E.
    + unfold scope_try in E.
      destruct (path_of _) as [p|]; simpl in E; [|done].
      destruct (resolve env p) as [abs|]; simpl in E; [|done].
      destruct (relative_to abs (kb_root env)) as [rel|]; simpl in E; [|done].
      injection E as <-. repeat case_decide; set_solver.
    + set_solver.
  - intros d. unfold tag_document. simpl. by rewrite lookup_insert_eq.
  - repeat split; by vm_compute.
Qed.

Lemma kb_scope_ne_source : lit "kb_scope" ≠ lit "source".
Proof. by vm_compute. Qed.

Lemma tag_document_source env d :
  metadata (tag_document env d) !! lit "source" =
    normalize_source (metadata d) !! lit "source".
Proof.
  unfold tag_document. simpl.
  by rewrite lookup_insert_ne by apply kb_scope_ne_source.
Qed.



Lemma split_documents_metadata split_text (docs : list Document) c :
  c ∈ split_documents split_text docs →
  ∃ d, d ∈ docs ∧ metadata c = metadata d.
Proof.
  unfold split_documents. rewrite list_elem_of_bind.
  intros (d & Hc & Hd). exists d. split; [done|].
  apply list_elem_of_fmap in Hc as (t & -> & _). done.
Qed.

End IngestFacts.

(* ===================================================================== *)
(** * The theorems at concrete inputs *)
(* ===================================================================== *)

Section Instances.
Import Memory Query Server Ingest Examples.

Lemma session_cap_fifo_witness :
  history (run_appends ops85 ∅) sid0 = turn_n <$> seq 5 80.
Proof.
  apply (proj2 (proj2 session_cap_fifo)
           ops85 sid0 (turn_n <$> seq 0 5) (turn_n <$> seq 5 80)).
  - vm_compute. reflexivity.
  - reflexivity.
  - reflexivity.
Defined.

Lemma build_context_window_witness :
  (_build_context sid0 2 store3).1 =
    lit "User: q1
Assistant: a1

User: q2
Assistant: a2".
Proof.
  rewrite (proj2 (proj2 (proj2 (proj2 (proj2
             (build_context_window sid0 2 store3)))))).
  - vm_compute. reflexivity.
  - vm_compute. reflexivity.
  - vm_compute. discriminate.
Defined.

Lemma build_context_frame_witness :
  (_build_context sid0 1 ∅).2 =
    <[sid0 := mkDeque _MAX_TURNS_PER_SESSION []]> ∅.
Proof.
  apply (proj2 (proj2 (proj2 (build_context_frame sid0 1 ∅)))).
  - reflexivity.
  - vm_compute. reflexivity.
Defined.

(** C6 as the claim words it: on the empty store, asking for the context
    of a session leaves a store that holds that session. *)
Lemma build_context_creates_session :
  (_build_context sid0 1 ∅).2 !! sid0 = Some (mkDeque 80 []) ∧
  ¬ (∀ (sid : list N) depth (st : gmap (list N) Deque),
       (_build_context sid depth st).2 = st).
Proof.
  split; [by vm_compute|].
  intros H. specialize (H sid0 1 ∅).
  apply (f_equal (λ m : gmap (list N) Deque, m !! sid0)) in H.
  vm_compute in H. discriminate.
Qed.

Lemma stream_round_trip_witness :
  ∃ chunks,
    wire (gen env_ok req_thesis (question req_thesis) world0).2 =
      (Delta <$> chunks) ++ [Done []] ∧
    concat chunks = answer305 ∧
    length <$> chunks = [140; 140; 25]%nat.
Proof.
  assert (Hask : ask env_ok (agent req_thesis) (question req_thesis)
                   (k req_thesis) world0 =
                 (Ok out305,
                  (ask env_ok (agent req_thesis) (question req_thesis)
                     (k req_thesis) world0).2))
    by (vm_compute; reflexivity).
  destruct (stream_round_trip _ _ _ _ _ _ Hask)
    as (chunks & _ & _ & Hw & Hcat & _ & _ & H305).
  exists chunks. split; [exact Hw|]. split; [exact Hcat|].
  apply H305. vm_compute. reflexivity.
Defined.

Lemma bogus_not_an_agent : agent req_bogus ∉ AGENTS.
Proof.
  apply (bool_decide_eq_false_1 (agent req_bogus ∈ AGENTS)).
  vm_compute. reflexivity.
Qed.

Lemma unknown_agent_rejected_witness :
  api_ask env_ok req_bogus world0 =
    (Ok (mkJSON false None None
           (Some (exn_str (HTTPException 400 agent_detail)))),
     world0) ∧
  api_ask_stream env_ok req_bogus world0 =
    (Raise (HTTPException 400 agent_detail), world0) ∧
  calls (ask env_ok (agent req_bogus) (question req_bogus) 4 world0).2 =
    calls world0 ++ [Retrieval (question req_bogus) 4 (Z.max 24 (4 * 3))] ∧
  (ask env_ok (agent req_bogus) (question req_bogus) 4 world0).1 =
    Raise (ValueError (lit "Unknown agent: " ++ agent req_bogus)).
Proof.
  destruct (unknown_agent_rejected env_ok req_bogus world0
              bogus_not_an_agent) as (Hj & Hs & _ & Hask).
  destruct (Hask (question req_bogus) 4 world0) as (_ & _ & Hc & Hr & _).
  split; [exact Hj|]. split; [exact Hs|]. split; [exact Hc|].
  apply (Hr []). reflexivity.
Defined.

(** C3 as the claim words it: [ask] with an agent that is none of the
    three has called the index when it fails. *)
Lemma ask_unknown_agent_retrieves :
  ask env_ok (lit "bogus") (lit "hi") 4 world0 =
    (Raise (ValueError (lit "Unknown agent: bogus")),
     mkWorld ∅ [Retrieval (lit "hi") 4 24] []) ∧
  ¬ (∀ env ag qu kk w,
       ag ∉ AGENTS → calls (ask env ag qu kk w).2 = calls w).
Proof.
  assert (Hrun : ask env_ok (lit "bogus") (lit "hi") 4 world0 =
            (Raise (ValueError (lit "Unknown agent: bogus")),
             mkWorld ∅ [Retrieval (lit "hi") 4 24] []))
    by (vm_compute; reflexivity).
  split; [exact Hrun|].
  intros H. specialize (H env_ok (lit "bogus") (lit "hi") 4 world0
                          bogus_not_an_agent).
  rewrite Hrun in H. discriminate H.
Qed.

Lemma thesis_is_an_agent : agent req_thesis ∈ AGENTS.
Proof.
  apply (bool_decide_eq_true_1 (agent req_thesis ∈ AGENTS)).
  vm_compute. reflexivity.
Qed.

Lemma stream_error_or_done_witness :
  wire (gen env_model_down req_thesis (question req_thesis) world0).2 =
    [ErrorEvent (lit "connection refused")] ∧
  api_ask env_no_index req_thesis world0 =
    (Ok (mkJSON false None None (Some index_missing)), world0) ∧
  api_ask_stream env_no_index req_thesis world0 =
    (Ok tt, mkWorld ∅ [] [ErrorEvent index_missing]).
Proof.
  split.
  - apply (proj1 (stream_error_or_done env_model_down req_thesis world0)
             (question req_thesis)
             (CapabilityError (lit "connection refused"))
             (ask env_model_down (agent req_thesis) (question req_thesis)
                (k req_thesis) world0).2).
    vm_compute. reflexivity.
  - apply (proj2 (proj2 (stream_error_or_done env_no_index req_thesis world0))).
    + exact thesis_is_an_agent.
    + left. reflexivity.
Defined.

(** C4 as the claim words it: with the index missing, a request for an
    agent the endpoints do not know gets the agent failure from both
    endpoints, not the index failure. *)
Lemma index_missing_needs_known_agent :
  vectorstore_dir env_no_index = None ∧
  (api_ask env_no_index req_bogus world0).1 ≠
    Ok (mkJSON false None None (Some index_missing)) ∧
  api_ask_stream env_no_index req_bogus world0 =
    (Raise (HTTPException 400 agent_detail), world0) ∧
  ¬ (∀ env req w,
       vectorstore_dir env = None ∨ vectorstore_dir env = Some [] →
       (api_ask env req w).1 =
         Ok (mkJSON false None None (Some index_missing)) ∧
       wire (api_ask_stream env req w).2 =
         wire w ++ [ErrorEvent index_missing]).
Proof.
  assert (Hj : (api_ask env_no_index req_bogus world0).1 ≠
                 Ok (mkJSON false None None (Some index_missing))).
  { vm_compute. discriminate. }
  split; [done|]. split; [exact Hj|]. split; [by vm_compute|].
  intros H.
  destruct (H env_no_index req_bogus world0 (or_introl eq_refl)) as [Hi _].
  by apply Hj.
Qed.

Lemma scope_from_first_segment_witness :
  kb_scope paths0 md_internal = lit "internal".
Proof.
  rewrite (proj1 (scope_from_first_segment paths0 md_internal)
             (lit "/srv/kb/INTERNAL/x.md") (lit "INTERNAL") [lit "x.md"]).
  - vm_compute. reflexivity.
  - vm_compute. reflexivity.
  - reflexivity.
Defined.

Lemma source_listing_witness :
  snd <$> cite_ok (int_of_str env_ok) doc_page2 =
    Some (lit "- doc.pdf (p.3): alpha").
Proof.
  rewrite (proj1 (proj2 (proj2 (proj2 (proj2 (proj2
             (source_listing (int_of_str env_ok) [])))))) doc_page2).
  - vm_compute. reflexivity.
  - vm_compute. reflexivity.
Defined.


End Instances.

(* ===================================================================== *)
(** * More on the session memory *)
(* ===================================================================== *)

Section MemoryMore.
Import Memory Examples.
Implicit Types (st : gmap (list N) Deque) (sid : list N).

Lemma lastn_snoc {A} n (l : list A) x :
  (1 ≤ n)%nat → lastn n (l ++ [x]) = lastn (n - 1) l ++ [x].
Proof.
  intros Hn. unfold lastn. rewrite length_app. simpl.
  rewrite drop_app_le by lia. do 2 f_equal. lia.
Qed.

Lemma lastn_suffix {A} n (l : list A) : lastn n l `suffix_of` l.
Proof. apply suffix_drop. Qed.

(** The text of the context for a session that holds turns. *)
Lemma build_context_text sid depth st :
  0 < _clamp_int depth 0 10 → history st sid ≠ [] →
  (_build_context sid depth st).1 =
    join blank_line
      (fmt_turn <$> lastn (Nat.min (Z.to_nat (_clamp_int depth 0 10))
                             (length (history st sid)))
                      (history st sid)).
Proof.
  intros Hd Hne. pose proof (get_history_fst sid st) as Hh.
  unfold _build_context.
  destruct (_get_history sid st) as [hist st1]. simpl in Hh.
  destruct (Z.leb_spec (_clamp_int depth 0 10) 0) as [?|_]; [lia|].
  rewrite Hh. destruct (history st sid) as [|t h'] eqn:E; [done|].
  simpl. by rewrite slice_from_neg.
Qed.


(** X1. [_get_history] hands out the deque the store holds: asking again
    gives the same deque and the same store, the other sessions are as
    they were, and a session seen for the first time starts empty with
    the bound of 80. *)
Theorem get_history_stable sid st :
  _get_history sid (_get_history sid st).2 = _get_history sid st ∧
  (_get_history sid st).2 !! sid = Some (_get_history sid st).1 ∧
  (∀ sid', sid' ≠ sid → (_get_history sid st).2 !! sid' = st !! sid') ∧
  (st !! sid = None →
     (_get_history sid st).1 = mkDeque 80 [] ∧
     dom (_get_history sid st).2 = {[sid]} ∪ dom st) ∧
  (∀ d, st !! sid = Some d → _get_history sid st = (d, st)).
Proof.
  split; [|split; [apply get_history_lookup|split; [|split]]].
  - unfold _get_history. destruct (st !! sid) eqn:E; simpl.
    + by rewrite E.
    + by rewrite lookup_insert_eq.
  - intros sid' Hne. by apply get_history_other.
  - intros Hn. unfold _get_history. rewrite Hn. simpl.
    split; [done|]. apply dom_insert_L.
  - intros d Hd. unfold _get_history. by rewrite Hd.
Qed.

Lemma get_history_stable_witness :
  (_get_history sid0 ∅).1 = mkDeque 80 [] ∧
  dom (_get_history sid0 ∅).2 = {[sid0]} ∪ dom (∅ : gmap (list N) Deque).
Proof.
  apply (proj1 (proj2 (proj2 (proj2 (get_history_stable sid0 ∅))))).
  reflexivity.
Defined.

(** X2. [_store_turn] writes to one session only: every other session keeps
    its deque, the store gains at most the session written to and loses
    none, and the bound of 80 on every deque is kept. *)
Theorem store_turn_isolated sid qq aa st :
  (∀ sid', sid' ≠ sid → _store_turn sid qq aa st !! sid' = st !! sid') ∧
  dom (_store_turn sid qq aa st) = {[sid]} ∪ dom st ∧
  (store_ok st → store_ok (_store_turn sid qq aa st)).
Proof.
  split; [|split].
  - intros sid' Hne. unfold _store_turn.
    pose proof (get_history_other sid sid' st) as Ho.
    destruct (_get_history sid st) as [hist st1]. simpl in Ho.
    rewrite lookup_insert_ne by done. by apply Ho.
  - unfold _store_turn, _get_history.
    destruct (st !! sid) as [d|] eqn:E.
    + by rewrite dom_insert_L.
    + rewrite !dom_insert_L. by rewrite (assoc_L (∪)), (idemp_L (∪)).
  - apply store_turn_ok.
Qed.

Lemma store_turn_isolated_witness : store_ok (_store_turn sid0 [] [] ∅).
Proof.
  apply (proj2 (proj2 (store_turn_isolated sid0 [] [] ∅))).
  apply store_ok_empty.
Defined.

(** X3. What was just stored is what the context ends with: after
    [_store_turn], the context of that session for any depth of at least
    one is not empty, its last block is the turn stored, and the blocks
    before it are fewer than the clamped depth and are the end of what
    the session held. *)
Theorem store_then_context sid qq aa depth st :
  store_ok st → 1 ≤ depth →
  ∃ earlier,
    earlier `suffix_of` history st sid ∧
    (length earlier < Z.to_nat (_clamp_int depth 0 10))%nat ∧
    (_build_context sid depth (_store_turn sid qq aa st)).1 =
      join blank_line (fmt_turn <$> (earlier ++ [mkTurn qq aa])).
Proof.
  intros Hok Hd.
  assert (Hc : 1 ≤ _clamp_int depth 0 10 ≤ 10) by (unfold _clamp_int; lia).
  pose proof (store_turn_same sid qq aa st Hok) as Hh.
  unfold _MAX_TURNS_PER_SESSION in Hh.
  rewrite lastn_snoc in Hh by lia.
  set (kept := lastn (80 - 1) (history st sid)) in *.
  set (m := Nat.min (Z.to_nat (_clamp_int depth 0 10))
                    (length (kept ++ [mkTurn qq aa]))).
  assert (Hm : (1 ≤ m)%nat).
  { subst m. rewrite length_app. simpl. lia. }
  exists (lastn (m - 1) kept). split; [|split].
  - etrans; apply lastn_suffix.
  - rewrite lastn_length. subst m. lia.
  - rewrite build_context_text; [|lia|].
    + rewrite Hh. fold m. by rewrite lastn_snoc.
    + rewrite Hh. by destruct kept.
Qed.

Lemma store_then_context_witness :
  ∃ earlier,
    earlier `suffix_of` history store3 sid0 ∧
    (length earlier < Z.to_nat (_clamp_int 2 0 10))%nat ∧
    (_build_context sid0 2 (_store_turn sid0 (lit "q") (lit "a") store3)).1 =
      join blank_line (fmt_turn <$> (earlier ++ [mkTurn (lit "q") (lit "a")])).
Proof.
  apply store_then_context.
  - apply run_appends_ok, store_ok_empty.
  - lia.
Defined.
End MemoryMore.

(* ===================================================================== *)
(** * More on the slicer *)
(* ===================================================================== *)

Section ChunkMore.
Import Memory.
Context {A : Type}.
Implicit Types s : list A.

Lemma strides_lookup_length size n s j c :
  strides size n s !! j = Some c →
  (j < n)%nat ∧ length c = Nat.min size (length s - j * size).
Proof.
  intros Hc. assert (Hj : (j < n)%nat).
  { apply lookup_lt_Some in Hc. unfold strides in Hc.
    by rewrite length_fmap, length_seq in Hc. }
  split; [done|]. rewrite strides_lookup in Hc by done.
  injection Hc as <-. unfold slice.
  rewrite length_take, length_drop. lia.
Qed.

Lemma ceil_div_last len size :
  (0 < size)%nat → (0 < len)%nat →
  ((Nat.div (len + size - 1) size - 1) * size < len)%nat.
Proof.
  intros Hsize Hlen.
  pose proof (Nat.div_mod (len + size - 1) size ltac:(lia)) as Hdm.
  pose proof (Nat.mod_upper_bound (len + size - 1) size ltac:(lia)).
  nia.
Qed.

(** X4. [_chunk_text] with any positive size cuts a string into pieces that
    concatenate to it: there are as many as the length divided by the
    size, rounded up, none is empty or longer than the size, and all but
    the last have exactly the size.  The empty string gives no piece
    whatever the size, and a size of zero on a string that is not empty is
    the [ValueError] of [range]. *)
Theorem chunk_text_partition s size :
  ((0 < size)%nat →
   ∃ chunks,
     _chunk_text s size = Some chunks ∧
     concat chunks = s ∧
     length chunks = Nat.div (length s + size - 1) size ∧
     Forall (λ c, (0 < length c ≤ size)%nat) chunks ∧
     (∀ i c, chunks !! i = Some c → (S i < length chunks)%nat →
        length c = size)) ∧
  _chunk_text ([] : list A) size = Some [] ∧
  (s ≠ [] → _chunk_text s 0 = None).
Proof.
  split; [|split; [done|by destruct s]].
  intros Hsize. eexists. split; [by apply chunk_text_strides|].
  set (n := Nat.div (length s + size - 1) size).
  assert (Hlen : length (strides size n s) = n).
  { unfold strides. by rewrite length_fmap, length_seq. }
  split; [apply strides_concat, ceil_div_bound; lia|].
  split; [done|]. rewrite Hlen. split.
  - apply Forall_lookup. intros j c Hc.
    apply strides_lookup_length in Hc as [Hj ->].
    destruct (decide (length s = 0)%nat) as [Hz|Hnz].
    { subst n. rewrite Hz in Hj. simpl in Hj.
      rewrite Nat.div_small in Hj by lia. lia. }
    pose proof (ceil_div_last (length s) size Hsize ltac:(lia)) as Hlast.
    fold n in Hlast. nia.
  - intros i c Hc Hi. apply strides_lookup_length in Hc as [Hj ->].
    pose proof (ceil_div_last (length s) size Hsize) as Hlast.
    fold n in Hlast.
    destruct (decide (length s = 0)%nat) as [Hz|Hnz].
    { subst n. rewrite Hz in Hj. simpl in Hj.
      rewrite Nat.div_small in Hj by lia. lia. }
    specialize (Hlast ltac:(lia)). nia.
Qed.
End ChunkMore.

Section ChunkInstances.
Import Memory Examples.

Lemma chunk_text_partition_witness :
  ∃ chunks,
    _chunk_text answer305 120 = Some chunks ∧
    concat chunks = answer305 ∧
    length chunks = Nat.div (length answer305 + 120 - 1) 120 ∧
    Forall (λ c, (0 < length c ≤ 120)%nat) chunks ∧
    (∀ i c, chunks !! i = Some c → (S i < length chunks)%nat →
       length c = 120%nat).
Proof.
  apply (proj1 (chunk_text_partition answer305 120)). lia.
Defined.
End ChunkInstances.

(* ===================================================================== *)
(** * More on [ask] and the agent tables *)
(* ===================================================================== *)

Section AskMore.
Import Query Server Prompt Examples.
Implicit Types (w : World) (env : Env).

Lemma elem_of_AGENTS ag :
  ag ∈ AGENTS ↔ ag = lit "thesis" ∨ ag = lit "python" ∨ ag = lit "reviewer".
Proof.
  unfold AGENTS. rewrite !elem_of_cons, elem_of_nil. tauto.
Qed.

Lemma get_chat_unknown ag :
  ag ∉ AGENTS → get_chat ag = Raise (ValueError (lit "Unknown agent: " ++ ag)).
Proof.
  rewrite elem_of_AGENTS. intros Hag.
  unfold get_chat. repeat case_decide; tauto.
Qed.

(** X5. The guard of the endpoints, the model table of [get_chat] and the
    keys of [SYSTEM_HINT] accept the same agents; for any other agent
    [get_chat] raises the [ValueError] that names it, while the system
    message silently falls back to the one of thesis. *)
Theorem agent_tables_agree ag :
  (ag ∈ AGENTS ↔ ∃ llm, get_chat ag = Ok llm) ∧
  (ag ∈ AGENTS ↔ is_Some (SYSTEM_HINT !! ag)) ∧
  (ag ∉ AGENTS →
     get_chat ag = Raise (ValueError (lit "Unknown agent: " ++ ag)) ∧
     ask_system ag = thesis_hint).
Proof.
  rewrite elem_of_AGENTS. split; [|split].
  - unfold get_chat. repeat case_decide; split; try tauto; eauto.
    by intros [? ?].
  - unfold SYSTEM_HINT. rewrite !lookup_insert, lookup_empty.
    repeat case_decide; split; try tauto; try (by eauto);
      try (by intros [? ?]); intros [?|[?|?]]; congruence.
  - intros Hag. split.
    + apply get_chat_unknown. by rewrite elem_of_AGENTS.
    + unfold ask_system, SYSTEM_HINT.
      rewrite !lookup_insert, lookup_empty.
      repeat case_decide; try done; exfalso; apply Hag; auto.
Qed.

Lemma agent_tables_agree_witness :
  get_chat (lit "bogus") =
    Raise (ValueError (lit "Unknown agent: " ++ lit "bogus")) ∧
  ask_system (lit "bogus") = thesis_hint.
Proof.
  apply (proj2 (proj2 (agent_tables_agree (lit "bogus")))).
  exact bogus_not_an_agent.
Defined.

(** X6. Every way [ask] can end.  An exception of the retriever, of the
    model or of [format_sources] leaves [ask] unchanged, after the calls
    made so far; an agent [get_chat] does not know is refused after the
    retrieval; otherwise the answer is the text of the model and the
    listing of the retrieved chunks, after one retrieval with
    [fetch_k = max(24, 3k)] and one generation whose prompt holds the
    chunks and the question. *)
Theorem ask_outcomes env ag qu kk w :
  let fetch_k := Z.max 24 (kk * 3) in
  (∀ e, retriever_invoke env qu kk fetch_k = Raise e →
     ask env ag qu kk w = (Raise e, retrieved qu kk w)) ∧
  (∀ docs, retriever_invoke env qu kk fetch_k = Ok docs → ag ∉ AGENTS →
     ask env ag qu kk w =
       (Raise (ValueError (lit "Unknown agent: " ++ ag)), retrieved qu kk w)) ∧
  (∀ docs llm e,
     retriever_invoke env qu kk fetch_k = Ok docs → get_chat ag = Ok llm →
     llm_invoke env llm (ask_system ag) (ask_prompt docs qu) = Raise e →
     ask env ag qu kk w = (Raise e, generated llm ag qu kk docs w)) ∧
  (∀ docs llm content e,
     retriever_invoke env qu kk fetch_k = Ok docs → get_chat ag = Ok llm →
     llm_invoke env llm (ask_system ag) (ask_prompt docs qu) = Ok content →
     format_sources (int_of_str env) docs 220 = Raise e →
     ask env ag qu kk w = (Raise e, generated llm ag qu kk docs w)) ∧
  (∀ docs llm content srcs,
     retriever_invoke env qu kk fetch_k = Ok docs → get_chat ag = Ok llm →
     llm_invoke env llm (ask_system ag) (ask_prompt docs qu) = Ok content →
     format_sources (int_of_str env) docs 220 = Ok srcs →
     ask env ag qu kk w =
       (Ok (mkOut content srcs), generated llm ag qu kk docs w)).
Proof.
  intros fetch_k. subst fetch_k.
  unfold ask, bind, lift, log_call, ret, retrieved, generated,
    ask_system, ask_prompt.
  cbv beta iota zeta.
  split; [|split; [|split; [|split]]].
  - by intros e ->.
  - intros docs -> Hag. by rewrite (get_chat_unknown ag Hag).
  - intros docs llm e -> -> ->.
    cbn [sessions calls wire]. by rewrite <- app_assoc.
  - intros docs llm content e -> -> -> ->.
    cbn [sessions calls wire]. by rewrite <- app_assoc.
  - intros docs llm content srcs -> -> -> ->.
    cbn [sessions calls wire]. by rewrite <- app_assoc.
Qed.

Lemma ask_outcomes_witness :
  ask env_model_down (lit "thesis") (lit "hi") 4 world0 =
    (Raise (CapabilityError (lit "connection refused")),
     generated (mkChat thesis_model 25) (lit "thesis") (lit "hi") 4 [] world0).
Proof.
  apply (proj1 (proj2 (proj2
           (ask_outcomes env_model_down (lit "thesis") (lit "hi") 4 world0)))).
  - reflexivity.
  - vm_compute. reflexivity.
  - reflexivity.
Defined.
End AskMore.

(* ===================================================================== *)
(** * More on the source listing *)
(* ===================================================================== *)

Section FirstSeenMore.
Context {A K : Type} `{EqDecision K} (key : A → K).
Implicit Types l : list A.

Lemma first_seen_keys l k :
  k ∈ key <$> first_seen key l ↔ k ∈ key <$> l.
Proof.
  induction l as [|x l IH]; [done|]. simpl.
  rewrite !elem_of_cons, <- IH, !list_elem_of_fmap.
  split.
  - intros [->|(y & -> & Hy)]; [by left|].
    apply list_elem_of_filter in Hy as [_ Hy]. right. eauto.
  - intros [->|(y & -> & Hy)]; [by left|].
    destruct (decide (key y = key x)) as [->|Hne]; [by left|].
    right. exists y. split; [done|]. by apply list_elem_of_filter.
Qed.

Lemma first_seen_keys_NoDup l : NoDup (key <$> first_seen key l).
Proof.
  induction l as [|x l IH]; simpl; [constructor|].
  apply NoDup_cons. split.
  - rewrite list_elem_of_fmap. intros (y & Heq & Hy).
    apply list_elem_of_filter in Hy as [Hne _]. by apply Hne.
  - apply (sublist_NoDup _ (key <$> first_seen key l)); [exact IH|].
    apply fmap_sublist, sublist_filter.
Qed.

Lemma first_seen_same_key x l :
  Forall (λ y, key y = key x) l → first_seen key (x :: l) = [x].
Proof.
  intros Hall. simpl. f_equal.
  assert (Hfs : Forall (λ y, key y = key x) (first_seen key l)).
  { rewrite Forall_forall in *. intros y Hy. apply Hall.
    eapply elem_of_sublist; [exact Hy|apply first_seen_sublist]. }
  induction Hfs as [|y r Hy _ IH]; [done|].
  by rewrite filter_cons_False by (by intros ?).
Qed.
End FirstSeenMore.

Section StripFacts.
Import Query.
Implicit Types s : list N.

Lemma lstrip_split s :
  ∃ pre, s = pre ++ lstrip s ∧ Forall (λ c, is_space c = true) pre.
Proof.
  induction s as [|c s (pre & Hs & Hpre)]; [by exists []|]. simpl.
  destruct (is_space c) eqn:E.
  - exists (c :: pre). split; [by rewrite Hs at 1|]. by constructor.
  - by exists [].
Qed.

Lemma lstrip_head s c : head (lstrip s) = Some c → is_space c = false.
Proof.
  induction s as [|x s IH]; [done|]. simpl.
  destruct (is_space x) eqn:E; [done|]. simpl. by intros [= <-].
Qed.

(** [strip] takes whitespace off both ends and nothing else. *)
Lemma strip_split s :
  ∃ pre post,
    s = pre ++ strip s ++ post ∧
    Forall (λ c, is_space c = true) pre ∧
    Forall (λ c, is_space c = true) post.
Proof.
  destruct (lstrip_split s) as (pre & Hs & Hpre).
  destruct (lstrip_split (reverse (lstrip s))) as (post & Hr & Hpost).
  exists pre, (reverse post). split; [|split; [done|by apply Forall_reverse]].
  unfold strip. rewrite <- reverse_app, <- Hr, reverse_involutive. done.
Qed.

Lemma strip_ends s :
  (∀ c, head (strip s) = Some c → is_space c = false) ∧
  (∀ c, last (strip s) = Some c → is_space c = false).
Proof.
  unfold strip. split; intros c Hc.
  - rewrite head_reverse in Hc.
    destruct (lstrip_split (reverse (lstrip s))) as (pre & Hr & _).
    apply (lstrip_head s). rewrite <- last_reverse, Hr, last_app.
    by rewrite Hc.
  - rewrite last_reverse in Hc. by apply lstrip_head in Hc.
Qed.

Lemma replace_newlines_none s : 10%N ∉ replace_newlines s.
Proof.
  unfold replace_newlines. rewrite list_elem_of_fmap.
  intros (c & Hc & _). destruct (N.eqb_spec c 10); [done|congruence].
Qed.

Lemma clean_no_newline s : 10%N ∉ clean s.
Proof.
  unfold clean. intros Hin.
  destruct (strip_split (replace_newlines s)) as (pre & post & Hs & _).
  apply (replace_newlines_none s). rewrite Hs.
  rewrite !elem_of_app. tauto.
Qed.

(** X7. A snippet is one line of at most [max_snippet] characters and the
    ellipsis: it holds no newline, and the text it is cut from is the
    chunk with its newlines turned into spaces and the whitespace at both
    ends, and nothing else, taken off. *)
Theorem snippet_one_line max_snippet content :
  (10%N ∉ snippet_of max_snippet content) ∧
  (length (snippet_of max_snippet content) ≤ S max_snippet)%nat ∧
  (∃ pre post,
     replace_newlines content = pre ++ clean content ++ post ∧
     Forall (λ c, is_space c = true) pre ∧
     Forall (λ c, is_space c = true) post) ∧
  (∀ c, head (clean content) = Some c → is_space c = false) ∧
  (∀ c, last (clean content) = Some c → is_space c = false) ∧
  length (replace_newlines content) = length content.
Proof.
  split; [|split; [|split; [|split; [|split]]]].
  - unfold snippet_of. case_match.
    + rewrite elem_of_app. intros [Hin|Hin].
      * apply (clean_no_newline content).
        apply elem_of_take in Hin as (i & Hi & _).
        by eapply list_elem_of_lookup_2.
      * unfold ellipsis in Hin. by apply list_elem_of_singleton in Hin.
    + apply clean_no_newline.
  - unfold snippet_of.
    destruct (Nat.ltb_spec max_snippet (length (clean content))).
    + rewrite length_app, length_take. change (length ellipsis) with 1%nat. lia.
    + lia.
  - apply strip_split.
  - apply strip_ends.
  - apply strip_ends.
  - unfold replace_newlines. by rewrite length_fmap.
Qed.

Lemma snippet_one_line_witness :
  is_space 120%N = false.
Proof.
  apply (proj1 (proj2 (proj2 (proj2 (snippet_one_line 220 (lit " x
 ")))))).
  vm_compute. reflexivity.
Defined.
End StripFacts.

Section ListingMore.
Import Query Examples.
Variable ios : list N → Exc Z.
Implicit Types (d : Document) (docs : list Document).

Lemma exc_mapM_length {A B} (f : A → Exc B) l ys :
  exc_mapM f l = Ok ys → length ys = length l.
Proof.
  revert ys. induction l as [|x l IH]; intros ys; simpl.
  - by intros [= <-].
  - destruct (f x); simpl; [|done].
    destruct (exc_mapM f l); simpl; [|done].
    intros [= <-]. simpl. by rewrite (IH _ eq_refl).
Qed.

Lemma exc_mapM_raise {A B} (f : A → Exc B) l x e :
  x ∈ l → f x = Raise e → ∃ e', exc_mapM f l = Raise e'.
Proof.
  intros Hin Hx. induction Hin as [x l|x y l _ IH]; simpl.
  - rewrite Hx. simpl. eauto.
  - destruct (f y); simpl; [|eauto].
    destruct (IH Hx) as [e' ->]. simpl. eauto.
Qed.

Lemma exc_mapM_all {A B} (f : A → Exc B) (g : A → B) l :
  Forall (λ x, f x = Ok (g x)) l → exc_mapM f l = Ok (g <$> l).
Proof.
  induction 1 as [|x l Hx _ IH]; simpl; [done|].
  by rewrite Hx, IH.
Qed.

Lemma first_seen_by_index {A K} `{EqDecision K} (key : A → K) (l : list A) :
  first_seen key l =
    omap id (imap (λ i x, if decide (key x ∈ key <$> take i l)
                          then None else Some x) l).
Proof.
  induction l as [|x l IH] using rev_ind; [done|].
  rewrite first_seen_snoc, imap_app, omap_app, IH. f_equal.
  - f_equal. apply imap_ext. intros i y Hi. cbn beta.
    rewrite take_app_le; [done|].
    apply Nat.lt_le_incl. by eapply lookup_lt_Some.
  - cbn [imap omap list_omap]. rewrite Nat.add_0_r, take_app_length.
    by destruct (decide (key x ∈ key <$> l)).
Qed.

(** X8. When every chunk can be cited, the listing is made of the lines
    of the chunks whose key no earlier chunk has, in the order of the
    chunks: the chunk at index [i] gives a line exactly when its key is
    not among the keys of the first [i] chunks.  So every key that
    occurs is cited, each exactly once, and the listing has no more
    lines than there are chunks; the listing of no chunk is the empty
    string. *)
Theorem listing_cites_each_key_once docs kls :
  exc_mapM (cite ios 220) docs = Ok kls →
  let kept :=
    omap id (imap (λ i kl, if decide (kl.1 ∈ (take i kls).*1)
                           then None else Some kl) kls) in
  format_sources ios docs 220 = Ok (join nl (snd <$> kept)) ∧
  kept `sublist_of` kls ∧
  NoDup kept.*1 ∧
  (∀ key, key ∈ kept.*1 ↔ key ∈ kls.*1) ∧
  (length kept ≤ length docs)%nat ∧
  (docs = [] → format_sources ios docs 220 = Ok []).
Proof.
  intros Hk kept.
  assert (Hkept : kept = first_seen fst kls)
    by (symmetry; apply first_seen_by_index).
  rewrite Hkept.
  split; [by rewrite format_sources_first_seen, Hk|].
  split; [apply first_seen_sublist|].
  split; [apply first_seen_keys_NoDup|].
  split; [intros key; apply first_seen_keys|].
  split.
  - rewrite <- (exc_mapM_length _ _ _ Hk).
    apply sublist_length, first_seen_sublist.
  - by intros ->.
Qed.

(** X9. Chunks without a source and without a page all have the key
    unknown: however many there are, the listing is the one line of the
    first of them. *)
Theorem sourceless_chunks_share_one_line d docs :
  Forall (λ d, metadata d !! lit "source" = None ∧
               metadata d !! lit "page" = None) (d :: docs) →
  format_sources ios (d :: docs) 220 =
    Ok (lit "- unknown: " ++ snippet_of 220 (page_content d)).
Proof.
  intros Hall.
  set (g := λ d : Document,
         (lit "unknown",
          lit "- " ++ lit "unknown" ++ lit ": "
            ++ snippet_of 220 (page_content d))).
  assert (Hc : Forall (λ d, cite ios 220 d = Ok (g d)) (d :: docs)).
  { eapply Forall_impl; [exact Hall|]. intros d' [Hs Hp]. simpl.
    rewrite cite_no_page by (unfold page_of, dict_get_or; by rewrite Hp).
    unfold source_of, dict_get_or. by rewrite Hs. }
  rewrite format_sources_first_seen, (exc_mapM_all _ g _ Hc).
  unfold exc_bind. rewrite fmap_cons.
  rewrite (first_seen_same_key fst (g d) (g <$> docs)); [done|].
  apply Forall_fmap, Forall_true. done.
Qed.

(** X10. One chunk whose page [int] cannot read makes the whole listing
    raise. *)
Theorem unreadable_page_raises docs d s e :
  d ∈ docs → page_of d = PStr s → ios s = Raise e →
  ∃ e', format_sources ios docs 220 = Raise e'.
Proof.
  intros Hin Hp Hs.
  assert (Hc : cite ios 220 d = Raise e).
  { unfold cite. rewrite Hp. simpl. by rewrite Hs. }
  destruct (exc_mapM_raise _ _ _ _ Hin Hc) as [e' He'].
  exists e'. by rewrite format_sources_first_seen, He'.
Qed.
End ListingMore.

Section ListingInstances.
Import Query Examples.

Lemma listing_cites_each_key_once_witness :
  format_sources (int_of_str env_ok)
    [doc_bare; doc_page2; doc_bare; doc_page2] 220 =
    Ok (lit "- unknown: gamma
- doc.pdf (p.3): alpha").
Proof.
  rewrite (proj1 (listing_cites_each_key_once (int_of_str env_ok)
                    [doc_bare; doc_page2; doc_bare; doc_page2]
                    [(lit "unknown", lit "- unknown: gamma");
                     (lit "doc.pdf:2", lit "- doc.pdf (p.3): alpha");
                     (lit "unknown", lit "- unknown: gamma");
                     (lit "doc.pdf:2", lit "- doc.pdf (p.3): alpha")]
                    ltac:(vm_compute; reflexivity))).
  vm_compute. reflexivity.
Defined.

Lemma sourceless_chunks_share_one_line_witness :
  format_sources (int_of_str env_ok) [doc_bare; mkDocument (lit "delta") ∅] 220 =
    Ok (lit "- unknown: " ++ snippet_of 220 (page_content doc_bare)).
Proof.
  apply (sourceless_chunks_share_one_line (int_of_str env_ok)).
  repeat constructor.
Defined.

Lemma unreadable_page_raises_witness :
  ∃ e', format_sources (int_of_str env_ok)
          [doc_page2;
           mkDocument (lit "eps") (<[lit "page" := PStr (lit "ii")]> ∅)] 220 =
        Raise e'.
Proof.
  eapply (unreadable_page_raises (int_of_str env_ok) _
            (mkDocument (lit "eps") (<[lit "page" := PStr (lit "ii")]> ∅))
            (lit "ii")).
  - apply list_elem_of_further, list_elem_of_here.
  - vm_compute. reflexivity.
  - reflexivity.
Defined.
End ListingInstances.

(* ===================================================================== *)
(** * More on the endpoints *)
(* ===================================================================== *)

Section EndpointMore.
Import Memory Query Server Examples.
Implicit Types (w : World) (env : Env) (req : AskRequest)
  (st : gmap (list N) Deque) (sid : list N).

Lemma build_context_store sid depth st :
  (_build_context sid depth st).2 =
    if _clamp_int depth 0 10 <=? 0 then st else (_get_history sid st).2.
Proof.
  unfold _build_context. destruct (_clamp_int depth 0 10 <=? 0); [done|].
  destruct (_get_history sid st) as [hist st1]. by destruct (items hist).
Qed.

Lemma get_history_history sid sid' st :
  history (_get_history sid st).2 sid' = history st sid'.
Proof.
  unfold _get_history, history. destruct (st !! sid) eqn:E; [done|]. simpl.
  destruct (decide (sid = sid')) as [<-|Hne].
  - by rewrite lookup_insert_eq, E.
  - by rewrite lookup_insert_ne.
Qed.

Lemma get_history_store_ok sid st :
  store_ok st → store_ok (_get_history sid st).2.
Proof.
  intros Hok sid' d. unfold _get_history.
  destruct (st !! sid) eqn:E; simpl; [apply Hok|].
  destruct (decide (sid = sid')) as [<-|Hne].
  - rewrite lookup_insert_eq. intros [= <-]. simpl.
    unfold _MAX_TURNS_PER_SESSION. split; [done|lia].
  - rewrite lookup_insert_ne by done. apply Hok.
Qed.

Lemma build_context_history sid depth sid' st :
  history (_build_context sid depth st).2 sid' = history st sid'.
Proof.
  rewrite build_context_store. case_match; [done|].
  apply get_history_history.
Qed.

Lemma build_context_ok sid depth st :
  store_ok st → store_ok (_build_context sid depth st).2.
Proof.
  intros Hok. rewrite build_context_store. case_match; [done|].
  by apply get_history_store_ok.
Qed.





Lemma question_for_model_frame req w :
  (session_of req = None →
     question_for_model req w = (Ok (question req), w)) ∧
  (∀ sid', history (sessions (question_for_model req w).2) sid' =
             history (sessions w) sid') ∧
  calls (question_for_model req w).2 = calls w ∧
  wire (question_for_model req w).2 = wire w.
Proof.
  unfold question_for_model.
  destruct (session_of req) as [sid|] eqn:Es; [|done].
  unfold bind, with_sessions, ret.
  pose proof (build_context_history sid DEFAULT_CONTEXT_TURNS) as Hh.
  split; [done|]. split; [|split].
  - intros sid'. specialize (Hh sid' (sessions w)).
    by destruct (_build_context sid DEFAULT_CONTEXT_TURNS (sessions w)).
  - by destruct (_build_context sid DEFAULT_CONTEXT_TURNS (sessions w)).
  - by destruct (_build_context sid DEFAULT_CONTEXT_TURNS (sessions w)).
Qed.

Lemma question_for_model_ok req w :
  ∃ q', (question_for_model req w).1 = Ok q'.
Proof.
  unfold question_for_model. destruct (session_of req); [|by eexists].
  unfold bind, with_sessions, ret.
  destruct (_build_context _ _ _). by eexists.
Qed.

Lemma index_ready_true env :
  index_ready env = true ∨
  (vectorstore_dir env = None ∨ vectorstore_dir env = Some []).
Proof.
  unfold index_ready. destruct (vectorstore_dir env) as [[|e es]|]; auto.
Qed.

(** The two endpoints past their guards. *)
Lemma api_ask_ready env req w q' :
  agent req ∈ AGENTS → index_ready env = true →
  (question_for_model req w).1 = Ok q' →
  api_ask env req w =
    match ask env (agent req) q' (k req) (question_for_model req w).2 with
    | (Ok out, w2) =>
        (Ok (mkJSON true (Some (answer out)) (Some (sources out)) None),
         (remember req (answer out) w2).2)
    | (Raise e, w2) => (Ok (mkJSON false None None (Some (exn_str e))), w2)
    end.
Proof.
  intros Hag Hr Hq. unfold api_ask, try_except, bind.
  rewrite decide_True by done. rewrite Hr. simpl.
  destruct (question_for_model req w) as [r w1]. simpl in Hq. subst r.
  simpl. destruct (ask env (agent req) q' (k req) w1) as [[out|e] w2]; [|done].
  destruct (remember_ok req (answer out) w2) as [st ->]. done.
Qed.

Lemma api_ask_stream_ready env req w q' :
  agent req ∈ AGENTS → index_ready env = true →
  (question_for_model req w).1 = Ok q' →
  api_ask_stream env req w =
    match ask env (agent req) q' (k req) (question_for_model req w).2 with
    | (Ok out, w2) =>
        let w3 := (remember req (answer out) w2).2 in
        (Ok tt,
         mkWorld (sessions w3) (calls w3)
           (wire w3
              ++ (Delta <$> strides 140
                              (Nat.div (length (answer out) + 140 - 1) 140)
                              (answer out))
              ++ [Done (sources out)]))
    | (Raise e, w2) =>
        (Ok tt, mkWorld (sessions w2) (calls w2)
                  (wire w2 ++ [ErrorEvent (exn_str e)]))
    end.
Proof.
  intros Hag Hr Hq. unfold api_ask_stream, bind.
  rewrite decide_True by done. rewrite Hr. simpl.
  destruct (question_for_model req w) as [r w1]. simpl in Hq. subst r.
  simpl. unfold gen, try_except, bind.
  destruct (ask env (agent req) q' (k req) w1) as [[out|e] w2]; [|done].
  destruct (remember_ok req (answer out) w2) as [st ->].
  rewrite chunk_text_strides by lia. unfold lift.
  rewrite for_each_emit_delta. unfold emit. simpl.
  by rewrite <- app_assoc.
Qed.

Lemma remember_frame req ans w :
  calls (remember req ans w).2 = calls w ∧
  wire (remember req ans w).2 = wire w.
Proof. destruct (remember_ok req ans w) as [st ->]. done. Qed.

(** X12. The two endpoints do the same work.  For a request that names one
    of the three agents, when the index directory is absent or empty
    both report the missing index and nothing else happens; when the
    index is there, both put the same question to [ask] and store the
    same turn, so they leave the same sessions and have made the same
    calls.  When [ask] raises, the error of the response of [api_ask]
    is the text of the one error event of the stream.  An ok response of
    [api_ask] carries the answer whose 140-character pieces the stream
    sends in order, and the sources of its one done event. *)
Theorem endpoints_agree env req w :
  agent req ∈ AGENTS →
  (vectorstore_dir env = None ∨ vectorstore_dir env = Some [] →
     api_ask env req w =
       (Ok (mkJSON false None None (Some index_missing)), w) ∧
     api_ask_stream env req w =
       (Ok tt, mkWorld (sessions w) (calls w)
                 (wire w ++ [ErrorEvent index_missing]))) ∧
  (index_ready env = true →
     sessions (api_ask_stream env req w).2 = sessions (api_ask env req w).2 ∧
     calls (api_ask_stream env req w).2 = calls (api_ask env req w).2 ∧
     (∀ q' e w2,
        (question_for_model req w).1 = Ok q' →
        ask env (agent req) q' (k req) (question_for_model req w).2 =
          (Raise e, w2) →
        (api_ask env req w).1 =
          Ok (mkJSON false None None (Some (exn_str e))) ∧
        (api_ask_stream env req w).1 = Ok tt ∧
        wire (api_ask_stream env req w).2 =
          wire w ++ [ErrorEvent (exn_str e)]) ∧
     (∀ ans srcs,
        (api_ask env req w).1 = Ok (mkJSON true (Some ans) (Some srcs) None) →
        ∃ chunks,
          _chunk_text ans 140 = Some chunks ∧ concat chunks = ans ∧
          (api_ask_stream env req w).1 = Ok tt ∧
          wire (api_ask_stream env req w).2 =
            wire w ++ (Delta <$> chunks) ++ [Done srcs])).
Proof.
  intros Hag. split.
  - intros Hdir. pose proof (index_ready_false env Hdir) as Hr.
    unfold api_ask, api_ask_stream, try_except.
    rewrite !decide_True by done. by rewrite Hr.
  - intros Hr.
    destruct (question_for_model_ok req w) as [q' Hq].
    rewrite (api_ask_ready env req w q' Hag Hr Hq).
    rewrite (api_ask_stream_ready env req w q' Hag Hr Hq).
    pose proof (question_for_model_frame req w) as (_ & _ & _ & Hw1).
    pose proof (ask_frame env (agent req) q' (k req)
                  (question_for_model req w).2) as [_ Hw2].
    rewrite Hq.
    destruct (ask env (agent req) q' (k req) (question_for_model req w).2)
      as [[out|e] w2] eqn:Hask; cbn [fst snd sessions calls wire] in *.
    + pose proof (remember_frame req (answer out) w2) as [_ Hw3].
      split; [done|]. split; [done|]. split.
      * intros q'' e w2' [= <-] Hask'. rewrite Hask in Hask'. done.
      * intros ans srcs [= <- <-].
        exists (strides 140 (Nat.div (length (answer out) + 140 - 1) 140)
                  (answer out)).
        split; [apply chunk_text_strides; lia|].
        split; [apply strides_concat, ceil_div_bound; lia|].
        split; [done|]. by rewrite Hw3, Hw2, Hw1.
    + split; [done|]. split; [done|]. split.
      * intros q'' e' w2' [= <-] Hask'. rewrite Hask in Hask'.
        injection Hask' as <- <-.
        split; [done|]. split; [done|]. by rewrite Hw2, Hw1.
      * intros ans srcs [=].
Qed.

Lemma endpoints_agree_witness :
  (api_ask env_ok req_thesis world0).1 =
    Ok (mkJSON true (Some answer305) (Some []) None) ∧
  ∃ chunks,
    _chunk_text answer305 140 = Some chunks ∧ concat chunks = answer305 ∧
    (api_ask_stream env_ok req_thesis world0).1 = Ok tt ∧
    wire (api_ask_stream env_ok req_thesis world0).2 =
      wire world0 ++ (Delta <$> chunks) ++ [Done []].
Proof.
  assert (Hok : (api_ask env_ok req_thesis world0).1 =
                  Ok (mkJSON true (Some answer305) (Some []) None))
    by (vm_compute; reflexivity).
  split; [exact Hok|].
  apply (proj2 (proj2 (proj2
           (proj2 (endpoints_agree env_ok req_thesis world0
                     thesis_is_an_agent) eq_refl))) answer305 [] Hok).
Defined.

(** X13. [api_ask] never raises and never writes to a stream: whatever the
    agent, the index, the retriever and the model do, it returns a
    response, which holds an answer and sources and no error when ok,
    and an error and nothing else when not. *)
Theorem api_ask_always_answers env req w :
  wire (api_ask env req w).2 = wire w ∧
  ((∃ ans srcs,
      (api_ask env req w).1 = Ok (mkJSON true (Some ans) (Some srcs) None)) ∨
   (∃ err,
      (api_ask env req w).1 = Ok (mkJSON false None None (Some err)))).
Proof.
  destruct (decide (agent req ∈ AGENTS)) as [Hag|Hag].
  - destruct (index_ready_true env) as [Hr|Hdir].
    + destruct (question_for_model_ok req w) as [q' Hq].
      rewrite (api_ask_ready env req w q' Hag Hr Hq).
      pose proof (question_for_model_frame req w) as (_ & _ & _ & Hw1).
      pose proof (ask_frame env (agent req) q' (k req)
                    (question_for_model req w).2) as [_ Hw2].
      destruct (ask env (agent req) q' (k req) (question_for_model req w).2)
        as [[out|e] w2]; simpl in *.
      * pose proof (remember_frame req (answer out) w2) as [_ Hw3].
        rewrite Hw3, Hw2, Hw1. split; [done|]. left. by eexists _, _.
      * rewrite Hw2, Hw1. split; [done|]. right. by eexists.
    + pose proof (index_ready_false env Hdir) as Hr.
      unfold api_ask, try_except. rewrite decide_True by done.
      rewrite Hr. simpl. split; [done|]. right. by eexists.
  - unfold api_ask, try_except. rewrite decide_False by done.
    simpl. split; [done|]. right. by eexists.
Qed.

(** X14. What [api_ask] leaves in the memory.  Without a session id, or with
    the empty one, the sessions are untouched.  With a session id, the
    turns of every other session are as they were, and what happens to
    the session is decided by [ask]: a request that is refused for its
    agent or for the missing index, or for which [ask] raises, stores no
    turn; once [ask] has returned, one turn is appended, made of the
    question as the client sent it, not as framed for the model, and of
    the answer returned, the oldest turn leaving when there were 80.  So
    an answer that reaches the client as ok is in the memory. *)
Theorem api_ask_records_turn env req w :
  (session_of req = None →
     sessions (api_ask env req w).2 = sessions w) ∧
  (∀ sid, session_of req = Some sid → store_ok (sessions w) →
     (∀ sid', sid' ≠ sid →
        history (sessions (api_ask env req w).2) sid' =
          history (sessions w) sid') ∧
     (agent req ∉ AGENTS ∨ index_ready env = false →
        history (sessions (api_ask env req w).2) sid =
          history (sessions w) sid) ∧
     (∀ q', agent req ∈ AGENTS → index_ready env = true →
        (question_for_model req w).1 = Ok q' →
        (∀ e w2,
           ask env (agent req) q' (k req) (question_for_model req w).2 =
             (Raise e, w2) →
           history (sessions (api_ask env req w).2) sid =
             history (sessions w) sid) ∧
        (∀ out w2,
           ask env (agent req) q' (k req) (question_for_model req w).2 =
             (Ok out, w2) →
           history (sessions (api_ask env req w).2) sid =
             lastn 80 (history (sessions w) sid
                         ++ [mkTurn (question req) (answer out)]))) ∧
     (∀ ans srcs,
        (api_ask env req w).1 = Ok (mkJSON true (Some ans) (Some srcs) None) →
        history (sessions (api_ask env req w).2) sid =
          lastn 80 (history (sessions w) sid ++ [mkTurn (question req) ans]))).
Proof.
  assert (Hguard : agent req ∉ AGENTS ∨ index_ready env = false →
            api_ask env req w =
              ((api_ask env req w).1, w) ∧
            ∃ err, (api_ask env req w).1 =
                     Ok (mkJSON false None None (Some err))).
  { intros Hg. unfold api_ask, try_except.
    destruct (decide (agent req ∈ AGENTS)) as [Hag|Hag].
    - destruct Hg as [?|Hr]; [done|]. rewrite Hr. simpl.
      split; [done|]. by eexists.
    - simpl. split; [done|]. by eexists. }
  destruct (decide (agent req ∈ AGENTS)) as [Hag|Hag];
    [destruct (index_ready env) eqn:Hr|].
  2,3: destruct (Hguard ltac:(auto)) as [Hw [err0 Herr]];
       rewrite Hw; cbn [fst snd]; split; [done|];
       intros sid Hs Hok; split; [done|]; split; [done|]; split;
       [intros q' Hag' Hr'; congruence
       |intros ans srcs Hans; congruence].
  clear Hguard.
  destruct (question_for_model_ok req w) as [q' Hq].
  rewrite (api_ask_ready env req w q' Hag Hr Hq).
  pose proof (question_for_model_frame req w) as (Hnone & Hh1 & _ & _).
  pose proof (ask_frame env (agent req) q' (k req)
                (question_for_model req w).2) as [Hs2 _].
  rewrite Hq.
  destruct (ask env (agent req) q' (k req) (question_for_model req w).2)
    as [[out|e] w2] eqn:Hask; cbn [fst snd] in *.
  - split.
    + intros Hn. unfold remember. rewrite Hn. simpl.
      rewrite Hs2. by rewrite (Hnone Hn).
    + intros sid Hs Hok. unfold remember. rewrite Hs.
      unfold with_sessions. cbn [fst snd sessions]. rewrite Hs2.
      assert (Hok1 : store_ok (sessions (question_for_model req w).2)).
      { unfold question_for_model. rewrite Hs.
        unfold bind, with_sessions, ret.
        pose proof (build_context_ok sid DEFAULT_CONTEXT_TURNS _ Hok) as Hb.
        by destruct (_build_context sid DEFAULT_CONTEXT_TURNS (sessions w)). }
      split; [|split; [|split]].
      * intros sid' Hne. by rewrite store_turn_other, Hh1.
      * intros [?|[=]]. done.
      * intros q'' _ _ [= <-]. rewrite Hask. split.
        -- intros e w2' [=].
        -- intros out' w2' [= <- _]. by rewrite store_turn_same, Hh1.
      * intros ans srcs [= <- _].
        by rewrite store_turn_same, Hh1.
  - split.
    + intros Hn. rewrite Hs2. by rewrite (Hnone Hn).
    + intros sid Hs Hok. rewrite Hs2. split; [|split; [|split]].
      * intros sid' _. apply Hh1.
      * intros _. apply Hh1.
      * intros q'' _ _ [= <-]. rewrite Hask. split.
        -- intros e' w2' _. apply Hh1.
        -- intros out w2' [=].
      * intros ans srcs [=].
Qed.

Lemma api_ask_records_turn_witness :
  history (sessions (api_ask env_ok req_thesis (mkWorld store3 [] [])).2)
    sid0 =
    [turn_n 0; turn_n 1; turn_n 2; mkTurn (question req_thesis) answer305].
Proof.
  rewrite (proj2 (proj2 (proj2
             (proj2 (api_ask_records_turn env_ok req_thesis
                       (mkWorld store3 [] []))
                sid0 eq_refl (run_appends_ok _ _ store_ok_empty))))
             answer305 []).
  - vm_compute. reflexivity.
  - vm_compute. reflexivity.
Defined.




End EndpointMore.

(* ===================================================================== *)
(** * More on ingestion *)
(* ===================================================================== *)

Section IngestMore.
Import Ingest Loader Examples MoreExamples.
Implicit Types (env : PathEnv) (md : gmap (list N) pyval) (d : Document).

Lemma py_or_true a b : truthy a = true → py_or a b = a.
Proof. unfold py_or. by intros ->. Qed.

Lemma py_or_false a b : truthy a = false → py_or a b = b.
Proof. unfold py_or. by intros ->. Qed.

Lemma py_or_falsy a b :
  truthy (py_or a b) = false → truthy a = false ∧ py_or a b = b.
Proof.
  unfold py_or. destruct (truthy a) eqn:E; [intros; congruence|done].
Qed.

(** Putting the text of the value picked in the place of the first
    candidate does not change what is picked. *)
Lemma py_or_chain_again (a b c last r : pyval) :
  r = py_or (py_or (py_or a b) c) last → r ≠ PNone →
  py_or (py_or (py_or (PStr (py_str r)) b) c) last = PStr (py_str r).
Proof.
  intros Er Hr. destruct (truthy (PStr (py_str r))) eqn:T.
  - rewrite (py_or_true (PStr (py_str r)) b) by done.
    rewrite (py_or_true (PStr (py_str r)) c) by done.
    by rewrite py_or_true.
  - assert (Hr' : r = PStr []).
    { destruct r as [|s|z]; [done| |].
      - simpl in T. apply bool_decide_eq_false in T.
        destruct s; [done|]. by destruct T.
      - simpl in T. apply bool_decide_eq_false in T.
        destruct T. apply str_of_int_nonempty. }
    assert (Ht : truthy (py_or (py_or (py_or a b) c) last) = false)
      by (by rewrite <- Er, Hr').
    apply py_or_falsy in Ht as [Ht3 E3].
    pose proof Ht3 as Ht3'. apply py_or_falsy in Ht3' as [Ht2 E2].
    pose proof Ht2 as Ht2'. apply py_or_falsy in Ht2' as [Ht1 E1].
    assert (Hc : truthy c = false) by (by rewrite <- E2).
    assert (Hb : truthy b = false) by (by rewrite <- E1).
    rewrite Hr'. simpl.
    rewrite (py_or_false (PStr [])) by done.
    rewrite (py_or_false b), (py_or_false c) by done.
    by rewrite <- E3, <- Er.
Qed.

Lemma dict_get_insert_ne md key key' v :
  key ≠ key' → dict_get (<[key := v]> md) key' = dict_get md key'.
Proof. intros Hne. unfold dict_get. by rewrite lookup_insert_ne. Qed.

Lemma candidate_keys_differ :
  lit "source" ≠ lit "file_path" ∧ lit "source" ≠ lit "path" ∧
  lit "source" ≠ lit "filename" ∧
  lit "kb_scope" ≠ lit "file_path" ∧ lit "kb_scope" ≠ lit "path" ∧
  lit "kb_scope" ≠ lit "filename".
Proof. repeat split; by vm_compute. Qed.

Lemma pick_source_normalized md :
  pick_source md ≠ PNone →
  pick_source (<[lit "source" := PStr (py_str (pick_source md))]> md) =
    PStr (py_str (pick_source md)).
Proof.
  intros Hp. destruct candidate_keys_differ as (H1 & H2 & H3 & _).
  unfold pick_source at 1. unfold dict_get at 1.
  rewrite lookup_insert_eq, !dict_get_insert_ne by done. simpl.
  by apply (py_or_chain_again (dict_get md (lit "source"))).
Qed.

Lemma normalize_source_idempotent md :
  normalize_source (normalize_source md) = normalize_source md.
Proof.
  destruct (decide (pick_source md = PNone)) as [Ep|Hne].
  - unfold normalize_source. by rewrite !Ep.
  - pose proof (pick_source_normalized md Hne) as Hp.
    assert (Hn : normalize_source md =
                 <[lit "source" := PStr (py_str (pick_source md))]> md).
    { unfold normalize_source. by destruct (pick_source md). }
    rewrite Hn. unfold normalize_source at 1. rewrite Hp. simpl.
    by rewrite insert_insert_eq.
Qed.

Lemma pick_source_insert_scope md v :
  pick_source (<[lit "kb_scope" := v]> md) = pick_source md.
Proof.
  destruct candidate_keys_differ as (_ & _ & _ & H1 & H2 & H3).
  unfold pick_source.
  by rewrite !dict_get_insert_ne by (done || apply kb_scope_ne_source).
Qed.

Lemma normalize_source_other md key :
  key ≠ lit "source" → normalize_source md !! key = md !! key.
Proof.
  intros Hne. unfold normalize_source.
  destruct (pick_source md); [done| |]; by rewrite lookup_insert_ne.
Qed.

Lemma kb_scope_insert_scope env md v :
  kb_scope env (<[lit "kb_scope" := v]> md) = kb_scope env md.
Proof.
  unfold kb_scope, scope_try, dict_get_or.
  by rewrite lookup_insert_ne by apply kb_scope_ne_source.
Qed.

Lemma kb_scope_values env md :
  kb_scope env md ∈ [lit "internal"; lit "public"; lit "unknown"].
Proof.
  unfold kb_scope. destruct (scope_try env md) as [sc|e] eqn:E.
  - unfold scope_try in E.
    destruct (path_of _) as [p|]; simpl in E; [|done].
    destruct (resolve env p) as [abs|]; simpl in E; [|done].
    destruct (relative_to abs (kb_root env)) as [rel|]; simpl in E; [|done].
    injection E as <-. repeat case_decide; set_solver.
  - set_solver.
Qed.

(** X16. Tagging is stable.  Tagging a tagged document changes nothing, so
    the scope and the source can be computed again from what was
    stored; tagging leaves the text and every metadata entry other than
    source and kb_scope as the loader wrote them; and a source the
    loader wrote as a string that is not empty is kept as it is. *)
Theorem tagging_is_stable env d :
  tag_document env (tag_document env d) = tag_document env d ∧
  page_content (tag_document env d) = page_content d ∧
  (∀ key, key ≠ lit "source" → key ≠ lit "kb_scope" →
     metadata (tag_document env d) !! key = metadata d !! key) ∧
  (∀ s, metadata d !! lit "source" = Some (PStr s) → s ≠ [] →
     metadata (tag_document env d) !! lit "source" = Some (PStr s)).
Proof.
  split; [|split; [done|split]].
  - unfold tag_document. simpl. f_equal.
    set (md1 := normalize_source (metadata d)).
    assert (Hn : normalize_source (<[lit "kb_scope" :=
                    PStr (kb_scope env md1)]> md1) =
                 <[lit "kb_scope" := PStr (kb_scope env md1)]> md1).
    { pose proof (normalize_source_idempotent (metadata d)) as Hi.
      fold md1 in Hi. unfold normalize_source in Hi |- *.
      rewrite pick_source_insert_scope.
      destruct (pick_source md1); [done| |].
      - rewrite insert_insert_ne by (symmetry; apply kb_scope_ne_source).
        by rewrite Hi.
      - rewrite insert_insert_ne by (symmetry; apply kb_scope_ne_source).
        by rewrite Hi. }
    rewrite Hn, kb_scope_insert_scope. by rewrite insert_insert_eq.
  - intros key Hs Hk. unfold tag_document. simpl.
    rewrite lookup_insert_ne by done. by apply normalize_source_other.
  - intros s Hs Hne. rewrite tag_document_source.
    assert (Hp : pick_source (metadata d) = PStr s).
    { unfold pick_source. unfold dict_get at 1. rewrite Hs. simpl.
      assert (Ht : truthy (PStr s) = true)
        by (simpl; by apply bool_decide_eq_true).
      rewrite (py_or_true (PStr s) (dict_get (metadata d) (lit "file_path")))
        by done.
      rewrite (py_or_true (PStr s) (dict_get (metadata d) (lit "path")))
        by done.
      by rewrite py_or_true. }
    unfold normalize_source. rewrite Hp. by rewrite lookup_insert_eq.
Qed.

Lemma load_docs_filter ld entries :
  load_docs ld entries = load_docs ld (filter loadable entries).
Proof.
  induction entries as [|p rest IH]; [done|].
  rewrite filter_cons.
  destruct (decide (loadable p)) as [[Hd Hext]|Hn]; simpl.
  - rewrite Hd. apply elem_of_cons in Hext as [?|?];
      repeat case_decide; rewrite ?IH; done.
  - destruct (is_dir p) eqn:Ed; [done|].
    repeat case_decide; try done; exfalso; apply Hn; split; try done.
    + rewrite H. apply list_elem_of_here.
    + by apply list_elem_of_further.
Qed.



(** X18. [build_index] on a corpus with nothing to load writes no index; when
    it does write one, the chunks come from a corpus that loaded to at
    least one document and every chunk carries a scope that is internal,
    public or unknown; an exception of a loader is not caught. *)
Theorem build_index_outcomes env ld split_text entries :
  (Forall (λ p, ¬ loadable p) entries →
     build_index env ld split_text entries = Ok NothingToIndex) ∧
  (∀ chunks,
     build_index env ld split_text entries = Ok (Indexed chunks) →
     (∃ docs, load_docs ld entries = Ok docs ∧ docs ≠ [] ∧
              chunks = index_chunks env split_text docs) ∧
     Forall (λ c, ∃ sc, metadata c !! lit "kb_scope" = Some (PStr sc) ∧
                        sc ∈ [lit "internal"; lit "public"; lit "unknown"])
       chunks) ∧
  (∀ e, load_docs ld entries = Raise e →
     build_index env ld split_text entries = Raise e).
Proof.
  split; [|split].
  - intros Hall. unfold build_index.
    replace (load_docs ld entries) with (@Ok (list Document) []); [done|].
    symmetry. rewrite load_docs_filter.
    replace (filter loadable entries) with (@nil Entry); [done|].
    symmetry. induction Hall as [|p rest Hp _ IH]; [done|].
    by rewrite filter_cons_False.
  - intros chunks. unfold build_index.
    destruct (load_docs ld entries) as [docs|e]; simpl; [|done].
    destruct docs as [|d docs]; [done|]. intros [= <-]. split.
    + by eexists.
    + apply Forall_forall. intros c Hc.
      apply split_documents_metadata in Hc as (d' & Hd' & ->).
      apply list_elem_of_fmap in Hd' as (d0 & -> & _).
      eexists. split; [|apply kb_scope_values].
      unfold tag_document. simpl. by rewrite lookup_insert_eq.
  - intros e He. unfold build_index. by rewrite He.
Qed.
End IngestMore.

Section IngestInstances.
Import Ingest Loader Examples MoreExamples.

Lemma tagging_is_stable_witness :
  metadata (tag_document paths0 (mkDocument [] md_internal)) !! lit "source" =
    Some (PStr (lit "/srv/kb/INTERNAL/x.md")).
Proof.
  apply (proj2 (proj2 (proj2
           (tagging_is_stable paths0 (mkDocument [] md_internal))))).
  - vm_compute. reflexivity.
  - vm_compute. discriminate.
Defined.


Lemma build_index_outcomes_witness :
  ∃ chunks,
    build_index paths0 loaders0 whole_text entries0 = Ok (Indexed chunks) ∧
    Forall (λ c, ∃ sc, metadata c !! lit "kb_scope" = Some (PStr sc) ∧
                       sc ∈ [lit "internal"; lit "public"; lit "unknown"])
      chunks.
Proof.
  eexists. split; [vm_compute; reflexivity|].
  eapply (proj2 (proj1 (proj2 (build_index_outcomes paths0 loaders0
                                 whole_text entries0)) _ _)).
  Unshelve. vm_compute. reflexivity.
Defined.
End IngestInstances.

(* ===================================================================== *)
(** * The command line *)
(* ===================================================================== *)

Section CliFacts.
Import Query Server Cli.
Implicit Types (argv : list (list N)) (sys : Sys) (trace : list Action).

(** Membership in a list written out. *)
Ltac in_list :=
  repeat first [apply list_elem_of_here | apply list_elem_of_further].
Ltac not_in_list H :=
  repeat (apply elem_of_cons in H as [H|H]; [discriminate|]);
  by apply elem_of_nil in H.
(** The cases of a membership in a list written out. *)
Ltac members H :=
  repeat (apply elem_of_cons in H as [H|H];
          [first [discriminate H | injection H as -> -> | idtac]|]);
  try (apply elem_of_nil in H; destruct H).

Lemma q3_nonempty (text : str) : q3_head ++ text ≠ [].
Proof. done. Qed.

Lemma lookup_BuildIndex_first trace i :
  BuildIndex ∉ trace →
  (BuildIndex :: trace) !! i = Some BuildIndex → i = 0%nat.
Proof.
  intros Hno Hi. destruct i as [|i]; [done|].
  exfalso. apply Hno. by eapply list_elem_of_lookup_2.
Qed.

(** The four commands. *)
Lemma main_ingest sys prog arg rest :
  strip (Ingest.lower arg) = lit "ingest" →
  main sys (prog :: arg :: rest) =
    BuildIndex :: match build_index sys with
                  | Ok _ => []
                  | Raise e => [Uncaught e]
                  end.
Proof. intros Hc. unfold main. by rewrite decide_True. Qed.

Lemma main_demo sys prog arg rest :
  strip (Ingest.lower arg) = lit "demo" →
  main sys (prog :: arg :: rest) = run_demo sys.
Proof.
  intros Hc. unfold main. rewrite decide_False, decide_True; [done..|].
  by rewrite Hc.
Qed.

Lemma main_question sys prog arg rest :
  strip (Ingest.lower arg) ∈ AGENTS →
  strip (join (lit " ") rest) ≠ [] →
  main sys (prog :: arg :: rest) =
    ensure_index sys
      (Ask (strip (Ingest.lower arg)) (strip (join (lit " ") rest))
       :: match ask_fn sys (strip (Ingest.lower arg))
                  (strip (join (lit " ") rest)) with
          | Ok out =>
              PrintAnswer (answer out) ::
              match sources out with
              | [] => []
              | _ => [PrintSources (sources out)]
              end
          | Raise e => [Uncaught e]
          end).
Proof.
  intros Hag Hq. unfold main. unfold AGENTS in Hag.
  assert (Hi : strip (Ingest.lower arg) ≠ lit "ingest").
  { intros E. rewrite E in Hag. revert Hag.
    apply (bool_decide_eq_false_1 (lit "ingest" ∈ _)). by vm_compute. }
  assert (Hd : strip (Ingest.lower arg) ≠ lit "demo").
  { intros E. rewrite E in Hag. revert Hag.
    apply (bool_decide_eq_false_1 (lit "demo" ∈ _)). by vm_compute. }
  rewrite decide_False, decide_False, decide_True by done.
  by destruct (strip (join (lit " ") rest)).
Qed.

Lemma main_other sys prog arg rest :
  strip (Ingest.lower arg) ≠ lit "ingest" →
  strip (Ingest.lower arg) ≠ lit "demo" →
  strip (Ingest.lower arg) ∉ AGENTS ∨ strip (join (lit " ") rest) = [] →
  main sys (prog :: arg :: rest) = [PrintUsage] ∨
  main sys (prog :: arg :: rest) = [PrintMissingQuestion].
Proof.
  intros Hi Hd Hno. unfold main.
  rewrite decide_False, decide_False by done.
  case_decide; [|by left].
  destruct Hno as [Hno|Hq]; [done|]. rewrite Hq. by right.
Qed.

(** The runs of a question put on the command line. *)
Lemma question_runs sys a q :
  let tail :=
    Ask a q :: match ask_fn sys a q with
               | Ok out =>
                   PrintAnswer (answer out) ::
                   match sources out with
                   | [] => []
                   | _ => [PrintSources (sources out)]
                   end
               | Raise e => [Uncaught e]
               end in
  (∀ a' q', Ask a' q' ∈ ensure_index sys tail →
     a' = a ∧ q' = q ∧ asks (ensure_index sys tail) = [(a, q)] ∧
     ∃ pre, (pre = [] ∨ pre = [BuildIndex]) ∧
            ensure_index sys tail = pre ++ tail) ∧
  (∀ i, ensure_index sys tail !! i = Some BuildIndex →
     i = 0%nat ∧ ready sys = Ok false).
Proof.
  intros tail. subst tail. unfold ensure_index, call.
  destruct (ready sys) as [[|]|e0]; [| destruct (build_index sys) as [[]|e1] |].
  - split.
    + intros a' q' Hin.
      assert (a' = a ∧ q' = q) as [-> ->].
      { apply elem_of_cons in Hin as [[= -> ->]|Hin]; [done|].
        destruct (ask_fn sys a q) as [out|e]; [|not_in_list Hin].
        destruct (sources out); not_in_list Hin. }
      split; [done|]. split; [done|]. split.
      * destruct (ask_fn sys a q) as [out|e]; [|done].
        by destruct (sources out).
      * exists []. split; [by left|done].
    + intros i Hi. exfalso. apply list_elem_of_lookup_2 in Hi.
      apply elem_of_cons in Hi as [?|Hi]; [done|].
      destruct (ask_fn sys a q) as [out|e]; [|not_in_list Hi].
      destruct (sources out); not_in_list Hi.
  - split.
    + intros a' q' Hin.
      assert (a' = a ∧ q' = q) as [-> ->].
      { apply elem_of_cons in Hin as [?|Hin]; [done|].
        apply elem_of_cons in Hin as [[= -> ->]|Hin]; [done|].
        destruct (ask_fn sys a q) as [out|e]; [|not_in_list Hin].
        destruct (sources out); not_in_list Hin. }
      split; [done|]. split; [done|]. split.
      * destruct (ask_fn sys a q) as [out|e]; [|done].
        by destruct (sources out).
      * exists [BuildIndex]. split; [by right|done].
    + intros i Hi. split; [|done].
      eapply lookup_BuildIndex_first; [|exact Hi].
      intros Hin. apply elem_of_cons in Hin as [?|Hin]; [done|].
      destruct (ask_fn sys a q) as [out|e]; [|not_in_list Hin].
      destruct (sources out); not_in_list Hin.
  - split.
    + intros a' q' Hin. not_in_list Hin.
    + intros i Hi. split; [|done].
      eapply lookup_BuildIndex_first; [|exact Hi].
      intros Hin. not_in_list Hin.
  - split.
    + intros a' q' Hin. not_in_list Hin.
    + intros i Hi. exfalso. apply list_elem_of_lookup_2 in Hi.
      not_in_list Hi.
Qed.

(** The runs of the demo. *)
Lemma demo_runs sys :
  let a1 := answer_of (ask_fn sys (lit "thesis") q1) in
  let a2 := answer_of (ask_fn sys (lit "python") q2) in
  let a3 := answer_of (ask_fn sys (lit "reviewer") (q3_head ++ a1)) in
  asks (run_demo sys) `prefix_of`
    [(lit "thesis", q1); (lit "python", q2);
     (lit "reviewer", q3_head ++ a1)] ∧
  writes (run_demo sys) `prefix_of`
    [(lit "reports/methods.md", strip a1 ++ nl);
     (lit "reports/analysis_skeleton.py", strip a2 ++ nl);
     (lit "reports/review.txt", strip a3 ++ nl)] ∧
  (length (writes (run_demo sys)) ≤ length (asks (run_demo sys))
     ≤ S (length (writes (run_demo sys))))%nat ∧
  (PrintOK ∈ run_demo sys →
     length (writes (run_demo sys)) = 3%nat ∧
     last (run_demo sys) = Some PrintOK) ∧
  (∀ i, run_demo sys !! i = Some BuildIndex →
     i = 0%nat ∧ ready sys = Ok false) ∧
  (∀ a q, Ask a q ∈ run_demo sys → a ∈ AGENTS ∧ q ≠ []) ∧
  (ready sys = Ok true ∨ ready sys = Ok false ∧ build_index sys = Ok tt →
   (∀ a q, ∃ out, ask_fn sys a q = Ok out) →
   (∀ p t, write_text sys p t = Ok tt) →
   PrintOK ∈ run_demo sys).
Proof.
  intros a1 a2 a3. subst a1 a2 a3.
  unfold run_demo, ensure_index, call. cbv zeta.
  destruct (ready sys) as [[|]|e0] eqn:Hready;
    [| destruct (build_index sys) as [[]|e0] eqn:Hbuild |].
  all: destruct (ask_fn sys (lit "thesis") q1) as [out1|e1] eqn:Hask1;
    cbn [answer_of];
    [destruct (write_text sys (lit "reports/methods.md")
                 (strip (answer out1) ++ nl)) as [[]|e1] eqn:Hw1;
     [destruct (ask_fn sys (lit "python") q2) as [out2|e2] eqn:Hask2;
      cbn [answer_of];
      [destruct (write_text sys (lit "reports/analysis_skeleton.py")
                   (strip (answer out2) ++ nl)) as [[]|e2] eqn:Hw2;
       [destruct (ask_fn sys (lit "reviewer") (q3_head ++ answer out1))
          as [out3|e3] eqn:Hask3;
        cbn [answer_of];
        [destruct (write_text sys (lit "reports/review.txt")
                     (strip (answer out3) ++ nl)) as [[]|e3] eqn:Hw3|]|]|]|]|].
  all: (split; [by eexists|]); (split; [by eexists|]);
       (split; [cbn [asks writes omap list_omap length]; lia|]);
       (split; [try (intros Hin; split; [reflexivity|reflexivity]);
                try (intros Hin; exfalso; not_in_list Hin)|]);
       (split;
         [intros i Hi;
          first [ split; [|reflexivity];
                  (eapply lookup_BuildIndex_first; [|exact Hi]);
                  intros Hin; not_in_list Hin
                | exfalso; apply list_elem_of_lookup_2 in Hi;
                  not_in_list Hi ]|]);
       (split;
         [intros a q Hin; members Hin;
          (split; [unfold AGENTS; in_list|discriminate])|]).
  all: intros Hr Hasks Hwrites;
       try (destruct Hr as [Hr|[Hr Hb]]; try discriminate Hr;
            try discriminate Hb);
       try (destruct (Hasks (lit "thesis") q1) as [o Ho];
            rewrite Hask1 in Ho; discriminate Ho);
       try (destruct (Hasks (lit "python") q2) as [o Ho];
            rewrite Hask2 in Ho; discriminate Ho);
       try (destruct (Hasks (lit "reviewer") (q3_head ++ answer out1))
              as [o Ho]; rewrite Hask3 in Ho; discriminate Ho);
       try (rewrite Hwrites in Hw1; discriminate Hw1);
       try (rewrite Hwrites in Hw2; discriminate Hw2);
       try (rewrite Hwrites in Hw3; discriminate Hw3);
       try in_list.
Qed.

(** X19. What the command line does with [ask] and with the index.  Every
    call of [ask] names one of the three agents and carries a question
    that is not empty.  The index is built as the first action or not at
    all: by the ingest command, or because the index is missing when a
    question or the demo is run.  A command other than demo calls [ask]
    at most once, for the agent named by the first argument in any
    letter case and with blanks around it ignored, with the other
    arguments joined by blanks and stripped; the answer is printed after
    it and an exception of [ask] ends the run.  The demo asks thesis,
    python and reviewer in this order, the reviewer about the answer of
    thesis, writes each answer, stripped and ended by a newline, to its
    report before it asks again, stops at the first exception, and
    prints OK only after the third report; it does so whenever nothing
    raises. *)
Theorem main_asks_known_agents sys argv :
  (∀ a q, Ask a q ∈ main sys argv → a ∈ AGENTS ∧ q ≠ []) ∧
  (∀ i, main sys argv !! i = Some BuildIndex →
     i = 0%nat ∧
     (ready sys = Ok false ∨
      ∃ prog arg rest, argv = prog :: arg :: rest ∧
                       strip (Ingest.lower arg) = lit "ingest")) ∧
  ((length argv < 2)%nat → main sys argv = [PrintUsage]) ∧
  (∀ prog arg rest, argv = prog :: arg :: rest →
     let cmd := strip (Ingest.lower arg) in
     let q := strip (join (lit " ") rest) in
     (cmd = lit "ingest" →
        main sys argv = [BuildIndex] ∨
        ∃ e, build_index sys = Raise e ∧
             main sys argv = [BuildIndex; Uncaught e]) ∧
     (cmd ∈ AGENTS → q = [] → main sys argv = [PrintMissingQuestion]) ∧
     (cmd ≠ lit "ingest" → cmd ≠ lit "demo" → cmd ∉ AGENTS →
        main sys argv = [PrintUsage]) ∧
     (cmd ≠ lit "demo" →
        ∀ a q', Ask a q' ∈ main sys argv →
          a = cmd ∧ q' = q ∧
          (∀ c, head q = Some c → is_space c = false) ∧
          (∀ c, last q = Some c → is_space c = false) ∧
          asks (main sys argv) = [(cmd, q)] ∧
          ∃ pre, (pre = [] ∨ pre = [BuildIndex]) ∧
            main sys argv =
              pre ++ Ask cmd q ::
                match ask_fn sys cmd q with
                | Ok out =>
                    PrintAnswer (answer out) ::
                    match sources out with
                    | [] => []
                    | _ => [PrintSources (sources out)]
                    end
                | Raise e => [Uncaught e]
                end) ∧
     (cmd = lit "demo" →
        let a1 := answer_of (ask_fn sys (lit "thesis") q1) in
        let a2 := answer_of (ask_fn sys (lit "python") q2) in
        let a3 := answer_of (ask_fn sys (lit "reviewer") (q3_head ++ a1)) in
        asks (main sys argv) `prefix_of`
          [(lit "thesis", q1); (lit "python", q2);
           (lit "reviewer", q3_head ++ a1)] ∧
        writes (main sys argv) `prefix_of`
          [(lit "reports/methods.md", strip a1 ++ nl);
           (lit "reports/analysis_skeleton.py", strip a2 ++ nl);
           (lit "reports/review.txt", strip a3 ++ nl)] ∧
        (length (writes (main sys argv)) ≤ length (asks (main sys argv))
           ≤ S (length (writes (main sys argv))))%nat ∧
        (PrintOK ∈ main sys argv →
           length (writes (main sys argv)) = 3%nat ∧
           last (main sys argv) = Some PrintOK) ∧
        (ready sys = Ok true ∨
         ready sys = Ok false ∧ build_index sys = Ok tt →
         (∀ a q, ∃ out, ask_fn sys a q = Ok out) →
         (∀ p t, write_text sys p t = Ok tt) →
         PrintOK ∈ main sys argv))).
Proof.
  destruct argv as [|prog [|arg rest]].
  1,2: split; [intros a q Hin; not_in_list Hin|];
       (split; [intros i Hi; apply list_elem_of_lookup_2 in Hi;
                not_in_list Hi|]);
       (split; [done|]); intros ??? [=].
  set (cmd := strip (Ingest.lower arg)).
  set (q := strip (join (lit " ") rest)).
  assert (Hid : lit "ingest" ≠ lit "demo") by discriminate.
  assert (Hia : lit "ingest" ∉ AGENTS).
  { apply (bool_decide_eq_false_1 (lit "ingest" ∈ _)). by vm_compute. }
  assert (Hda : lit "demo" ∉ AGENTS).
  { apply (bool_decide_eq_false_1 (lit "demo" ∈ _)). by vm_compute. }
  destruct (decide (cmd = lit "ingest")) as [Hi|Hi];
    [|destruct (decide (cmd = lit "demo")) as [Hd|Hd];
      [|destruct (decide (cmd ∈ AGENTS)) as [Ha|Ha];
        [destruct (decide (q = [])) as [Hq|Hq]|]]].
  - (* ingest *)
    pose proof (main_ingest sys prog arg rest Hi) as Hm.
    split; [|split; [|split]].
    + intros a q0 Hin. rewrite Hm in Hin.
      destruct (build_index sys); not_in_list Hin.
    + intros i Hin. split; [|right; by exists prog, arg, rest].
      rewrite Hm in Hin. eapply lookup_BuildIndex_first; [|exact Hin].
      intros Hb. destruct (build_index sys); not_in_list Hb.
    + cbn [length]. lia.
    + intros ??? [= <- <- <-]. cbv zeta. fold cmd q.
      split; [|split; [|split; [|split]]].
      * intros _. rewrite Hm. destruct (build_index sys) as [[]|e];
          [by left|right; by exists e].
      * intros Ha. rewrite Hi in Ha. done.
      * done.
      * intros _ a q0 Hin. rewrite Hm in Hin.
        destruct (build_index sys); not_in_list Hin.
      * intros Hd. rewrite Hi in Hd. done.
  - (* demo *)
    pose proof (main_demo sys prog arg rest Hd) as Hm.
    pose proof (demo_runs sys) as (H1 & H2 & H3 & H4 & H5 & H6 & H7).
    split; [|split; [|split]].
    + rewrite Hm. exact H6.
    + intros i Hin. rewrite Hm in Hin.
      destruct (H5 i Hin) as [-> Hr]. by split; [|left].
    + cbn [length]. lia.
    + intros ??? [= <- <- <-]. cbv zeta. fold cmd q.
      split; [done|]. split; [intros Ha; by rewrite Hd in Ha|].
      split; [done|]. split; [done|].
      intros _. rewrite Hm. done.
  - (* a known agent and no question *)
    destruct (main_other sys prog arg rest Hi Hd (or_intror Hq))
      as [Hm|Hm].
    { exfalso. revert Hm. unfold main. fold cmd q.
      rewrite decide_False, decide_False, decide_True by done.
      by rewrite Hq. }
    split; [|split; [|split]].
    + intros a q0 Hin. rewrite Hm in Hin. not_in_list Hin.
    + intros i Hin. rewrite Hm in Hin.
      apply list_elem_of_lookup_2 in Hin. not_in_list Hin.
    + cbn [length]. lia.
    + intros ??? [= <- <- <-]. cbv zeta. fold cmd q.
      split; [done|]. split; [done|]. split; [done|].
      split; [|done].
      intros _ a q0 Hin. rewrite Hm in Hin. not_in_list Hin.
  - (* a question *)
    pose proof (main_question sys prog arg rest Ha Hq) as Hm.
    fold cmd q in Hm.
    pose proof (question_runs sys cmd q) as [Hasks Hbuild].
    cbv zeta in Hasks, Hbuild. rewrite <- Hm in Hasks, Hbuild.
    split; [|split; [|split]].
    + intros a q0 Hin. by destruct (Hasks a q0 Hin) as (-> & -> & _).
    + intros i Hin. destruct (Hbuild i Hin) as [-> Hr]. by split; [|left].
    + cbn [length]. lia.
    + intros ??? [= <- <- <-]. cbv zeta. fold cmd q.
      split; [done|]. split; [done|]. split; [done|].
      split; [|done].
      intros _ a q0 Hin.
      destruct (Hasks a q0 Hin) as (-> & -> & Hone & pre & Hpre & Htr).
      split; [done|]. split; [done|].
      split; [apply strip_ends|]. split; [apply strip_ends|].
      split; [done|]. by exists pre.
  - (* anything else *)
    destruct (main_other sys prog arg rest Hi Hd (or_introl Ha))
      as [Hm|Hm].
    2: { exfalso. revert Hm. unfold main. fold cmd q.
         by rewrite decide_False, decide_False, decide_False by done. }
    split; [|split; [|split]].
    + intros a q0 Hin. rewrite Hm in Hin. not_in_list Hin.
    + intros i Hin. rewrite Hm in Hin.
      apply list_elem_of_lookup_2 in Hin. not_in_list Hin.
    + cbn [length]. lia.
    + intros ??? [= <- <- <-]. cbv zeta. fold cmd q.
      split; [done|]. split; [done|]. split; [done|].
      split; [|done].
      intros _ a q0 Hin. rewrite Hm in Hin. not_in_list Hin.
Qed.
End CliFacts.

Section CliInstances.
Import Query Server Cli MoreExamples.

Lemma main_asks_known_agents_witness :
  asks (main sys_echo argv0) = [(lit "thesis", lit "what now")] ∧
  length (writes (main sys_echo argv_demo)) = 3%nat ∧
  last (main sys_echo argv_demo) = Some PrintOK.
Proof.
  split.
  - destruct (proj2 (proj2 (proj2 (main_asks_known_agents sys_echo argv0)))
                (lit "main.py") (lit " Thesis ") [lit "what"; lit "now "]
                eq_refl) as (_ & _ & _ & Hq & _).
    destruct (Hq ltac:(vm_compute; discriminate)
                (lit "thesis") (lit "what now")) as (_ & _ & _ & _ & Ha & _).
    + replace (main sys_echo argv0)
        with [BuildIndex; Ask (lit "thesis") (lit "what now");
              PrintAnswer (lit "what now")]
        by (vm_compute; reflexivity).
      apply list_elem_of_further, list_elem_of_here.
    + exact Ha.
  - destruct (proj2 (proj2 (proj2 (main_asks_known_agents sys_echo argv_demo)))
                (lit "main.py") (lit "DEMO") [] eq_refl)
      as (_ & _ & _ & _ & Hd).
    destruct (Hd ltac:(vm_compute; reflexivity)) as (_ & _ & _ & Hdone & Hall).
    apply Hdone, Hall.
    + right. split; reflexivity.
    + intros a q. by eexists.
    + reflexivity.
Defined.
End CliInstances.
